(** * Supply-chain order ledger (OrderV1.sol) and its gateway
      (blockchain.service.ts)

    A shallow embedding of the order lifecycle contract and of the read,
    pagination and action paths of the Angular gateway service, with the
    properties of the design document stated over them. *)

From Stdlib Require Import ZArith List String Ascii Bool Lia Arith.
Import ListNotations.

Open Scope string_scope.
Open Scope list_scope.
Open Scope Z_scope.

(* ================================================================== *)
(** * EVM values *)
(* ================================================================== *)

(** A 160-bit account address. *)
Definition address : Type := Z.

(** Solidity [uint]. *)
Definition uint : Type := Z.

(** A [bytes32] value: thirty-two characters, a short literal being
    left-aligned and filled up with NUL. *)
Definition bytes32 : Type := string.

Definition NUL : ascii := Ascii.zero.

Fixpoint left_aligned (n : nat) (s : string) : string :=
  match n with
  | O => EmptyString
  | S n' =>
      match s with
      | EmptyString => String NUL (left_aligned n' EmptyString)
      | String c s' => String c (left_aligned n' s')
      end
  end.

(** [bytes32("...")] of a string literal. *)
Definition to_bytes32 (s : string) : bytes32 := left_aligned 32 s.

(** [uint32(x)]: the low 32 bits. *)
Definition to_uint32 (x : Z) : Z := x mod 2 ^ 32.

(* ================================================================== *)
(** * OrderAccessControl (the parent contract) *)
(* ================================================================== *)

Module OrderAccessControl.

(** Modelled from the spec: OrderAccessControl.sol is not among the
    sources.  Its storage is the creator's address, one configured
    address for each of the five roles, and the five owner slots. *)
Record t : Type := mk {
  contractCreator : address;
  farmer : address;
  auditor : address;
  warehouse : address;
  distributor : address;
  supermarket : address;
  owners : list address
}.

Definition set_contractCreator (a : address) (c : t) : t :=
  mk a (farmer c) (auditor c) (warehouse c) (distributor c)
     (supermarket c) (owners c).

Definition set_owners (o : list address) (c : t) : t :=
  mk (contractCreator c) (farmer c) (auditor c) (warehouse c)
     (distributor c) (supermarket c) o.

Definition is_owner (who : address) (c : t) : bool :=
  existsb (Z.eqb who) (owners c).

End OrderAccessControl.

Module AC := OrderAccessControl.

(* ================================================================== *)
(** * OrderV1: storage *)
(* ================================================================== *)

Module OrderV1.

(** Order meta data *)
Record Meta : Type := mkMeta {
  product : bytes32;
  amount : uint;
  revoked : bool
}.

(** Record *)
Record Record_ : Type := mkRecord {
  who : address;
  action : bytes32;
  when : Z
}.

(** Location of order *)
Record Location : Type := mkLocation {
  latitude : bytes32;
  longitude : bytes32;
  loc_who : address
}.

Inductive State : Type :=
| Ordered
| Approved
| Audited
| AtWarehouse
| WarehouseReleased
| InTransit
| Delivered
| Revoked.

Module SubState.
Inductive t : Type := None | Pending | InTransit.
End SubState.

Definition State_eq_dec (a b : State) : {a = b} + {a <> b}.
Proof. decide equality. Defined.

Definition State_eqb (a b : State) : bool :=
  if State_eq_dec a b then true else false.

(** The value the public getter [state()] hands out: the position of the
    member in the enum. *)
Definition State_code (s : State) : Z :=
  match s with
  | Ordered => 0
  | Approved => 1
  | Audited => 2
  | AtWarehouse => 3
  | WarehouseReleased => 4
  | InTransit => 5
  | Delivered => 6
  | Revoked => 7
  end.

(** The storage of one deployed OrderV1, the inherited part first. *)
Record Storage : Type := mkStorage {
  acl : AC.t;
  meta : Meta;
  history : list Record_;
  locationHistory : list Location;
  state : State;
  subState : SubState.t
}.

Definition set_acl (f : AC.t -> AC.t) (s : Storage) : Storage :=
  mkStorage (f (acl s)) (meta s) (history s) (locationHistory s)
            (state s) (subState s).

Definition set_meta (f : Meta -> Meta) (s : Storage) : Storage :=
  mkStorage (acl s) (f (meta s)) (history s) (locationHistory s)
            (state s) (subState s).

Definition set_history (f : list Record_ -> list Record_) (s : Storage)
  : Storage :=
  mkStorage (acl s) (meta s) (f (history s)) (locationHistory s)
            (state s) (subState s).

Definition set_locationHistory (f : list Location -> list Location)
  (s : Storage) : Storage :=
  mkStorage (acl s) (meta s) (history s) (f (locationHistory s))
            (state s) (subState s).

Definition set_state (st : State) (s : Storage) : Storage :=
  mkStorage (acl s) (meta s) (history s) (locationHistory s)
            st (subState s).

Definition set_subState (st : SubState.t) (s : Storage) : Storage :=
  mkStorage (acl s) (meta s) (history s) (locationHistory s)
            (state s) st.

Definition set_product (p : bytes32) (m : Meta) : Meta :=
  mkMeta p (amount m) (revoked m).
Definition set_amount (a : uint) (m : Meta) : Meta :=
  mkMeta (product m) a (revoked m).
Definition set_revoked (b : bool) (m : Meta) : Meta :=
  mkMeta (product m) (amount m) b.

(* ================================================================== *)
(** * Message calls *)
(* ================================================================== *)

(** What a message call sees of its transaction. *)
Record Env : Type := mkEnv {
  msg_sender : address;
  now : Z
}.

(** A contract function body: it reads the environment, threads the
    storage, and either completes or reverts ([None]). *)
Definition Tx (A : Type) : Type := Env -> Storage -> option (A * Storage).

Definition ret {A} (a : A) : Tx A := fun _ s => Some (a, s).

Definition bind {A B} (m : Tx A) (k : A -> Tx B) : Tx B :=
  fun e s =>
    match m e s with
    | Some (a, s') => k a e s'
    | None => None
    end.

Notation "m ;; k" := (bind m (fun _ => k))
  (at level 61, right associativity).

Definition require (b : bool) : Tx unit :=
  fun _ s => if b then Some (tt, s) else None.

Definition update (f : Storage -> Storage) : Tx unit :=
  fun _ s => Some (tt, f s).

Definition update_with (f : Env -> Storage -> Storage) : Tx unit :=
  fun e s => Some (tt, f e s).

(** A modifier wraps the body that stands at its [_]. *)
Definition Modifier : Type := Tx unit -> Tx unit.

Definition guarded (check : Env -> Storage -> bool) : Modifier :=
  fun body e s => (require (check e s) ;; body) e s.

(** Modelled from the spec: the guards of OrderAccessControl.sol, which
    is not among the sources.  Each one fails the enclosing call when the
    caller's address is not the one configured for the role. *)
Definition onlyFarmer : Modifier :=
  guarded (fun e s => msg_sender e =? AC.farmer (acl s)).
Definition onlyAuditor : Modifier :=
  guarded (fun e s => msg_sender e =? AC.auditor (acl s)).
Definition onlyWarehouse : Modifier :=
  guarded (fun e s => msg_sender e =? AC.warehouse (acl s)).
Definition onlyDistributor : Modifier :=
  guarded (fun e s => msg_sender e =? AC.distributor (acl s)).
Definition onlySupermarket : Modifier :=
  guarded (fun e s => msg_sender e =? AC.supermarket (acl s)).
Definition onlyFarmerOrAuditor : Modifier :=
  guarded (fun e s => (msg_sender e =? AC.farmer (acl s))
                      || (msg_sender e =? AC.auditor (acl s))).
Definition onlyContractOwners : Modifier :=
  guarded (fun e s => AC.is_owner (msg_sender e) (acl s)).

(** Modelled from the spec: [setOwners] of OrderAccessControl.sol, which
    is not among the sources.  It replaces the five owner slots and has no
    access restriction. *)
Definition setOwners (a1 a2 a3 a4 a5 : address) : Tx unit :=
  update (set_acl (AC.set_owners [a1; a2; a3; a4; a5])).

Definition inState (_state : State) : Modifier :=
  guarded (fun _ s => State_eqb (state s) _state).

(* ================================================================== *)
(** * OrderV1: functions *)
(* ================================================================== *)

(** The constructor runs on the storage the parent contract starts with. *)
Definition constructor (base : AC.t) (product : bytes32) (amount : uint)
  (creator : address) : Storage :=
  let s0 := mkStorage base (mkMeta (to_bytes32 "") 0 false) [] []
                      Ordered SubState.None in
  let s1 := set_acl (AC.set_contractCreator creator) s0 in
  let s2 := set_meta (set_product product) s1 in
  let s3 := set_meta (set_amount amount) s2 in
  let s4 := set_meta (set_revoked false) s3 in
  let s5 := set_state Ordered s4 in
  set_subState SubState.None s5.

(** Record history *)
Definition addRecord (action : bytes32) : Tx unit :=
  update_with (fun e =>
    set_history (fun h =>
      h ++ [mkRecord (msg_sender e) action (to_uint32 (now e))])).

Definition approve : Tx unit :=
  onlyFarmer (inState Ordered (
    addRecord (to_bytes32 "Approved") ;;
    update (set_state Approved))).

Definition validated : Tx unit :=
  onlyAuditor (inState Approved (
    addRecord (to_bytes32 "Audited") ;;
    update (set_state Audited))).

Definition storeAuditDocument : Tx unit :=
  onlyAuditor (inState Audited (
    addRecord (to_bytes32 "Stored document"))).

Definition warehouseReceivedOrder : Tx unit :=
  onlyWarehouse (inState Audited (
    update (set_state AtWarehouse) ;;
    addRecord (to_bytes32 "Received"))).

Definition warehouseReleasedOrder : Tx unit :=
  onlyWarehouse (inState AtWarehouse (
    update (set_state WarehouseReleased) ;;
    addRecord (to_bytes32 "Released"))).

Definition receivedAndInTransit : Tx unit :=
  onlyDistributor (inState WarehouseReleased (
    addRecord (to_bytes32 "In Transit") ;;
    update (set_state InTransit))).

Definition confirmDelivery : Tx unit :=
  onlySupermarket (inState InTransit (
    addRecord (to_bytes32 "Confirmed Delivery") ;;
    update (set_state Delivered))).

Definition revoke : Tx unit :=
  onlyFarmerOrAuditor (
    update (set_state Revoked) ;;
    update (set_meta (set_revoked true))).

Definition getHistoryLength (s : Storage) : uint :=
  Z.of_nat (List.length (history s)).

Definition updateLocation (latitude longitude : bytes32) : Tx unit :=
  onlyContractOwners (
    update_with (fun e =>
      set_locationHistory (fun l =>
        l ++ [mkLocation latitude longitude (msg_sender e)]))).

Definition getLocationLength (s : Storage) : uint :=
  Z.of_nat (List.length (locationHistory s)).

(* ================================================================== *)
(** * Transactions *)
(* ================================================================== *)

(** The seven calls that write a history record. *)
Inductive Transition : Type :=
| Approve
| Validated
| StoreAuditDocument
| WarehouseReceivedOrder
| WarehouseReleasedOrder
| ReceivedAndInTransit
| ConfirmDelivery.

(** Every state-changing entry point of the contract. *)
Inductive Call : Type :=
| Do (t : Transition)
| Revoke
| SetOwners (a1 a2 a3 a4 a5 : address)
| UpdateLocation (latitude longitude : bytes32).

Definition transition (t : Transition) : Tx unit :=
  match t with
  | Approve => approve
  | Validated => validated
  | StoreAuditDocument => storeAuditDocument
  | WarehouseReceivedOrder => warehouseReceivedOrder
  | WarehouseReleasedOrder => warehouseReleasedOrder
  | ReceivedAndInTransit => receivedAndInTransit
  | ConfirmDelivery => confirmDelivery
  end.

Definition dispatch (c : Call) : Tx unit :=
  match c with
  | Do t => transition t
  | Revoke => revoke
  | SetOwners a1 a2 a3 a4 a5 => setOwners a1 a2 a3 a4 a5
  | UpdateLocation la lo => updateLocation la lo
  end.

(** The storage a call leaves behind, if it completes. *)
Definition call (c : Call) (e : Env) (s : Storage) : option Storage :=
  match dispatch c e s with
  | Some (_, s') => Some s'
  | None => None
  end.

(** A transaction on the ledger: a call that reverts is rejected as a
    whole and the storage stays as it was. *)
Definition transact (c : Call) (e : Env) (s : Storage) : bool * Storage :=
  match call c e s with
  | Some s' => (true, s')
  | None => (false, s)
  end.

(** A sequence of calls all of which complete. *)
Fixpoint run (cs : list (Call * Env)) (s : Storage) : option Storage :=
  match cs with
  | [] => Some s
  | (c, e) :: cs' =>
      match call c e s with
      | Some s' => run cs' s'
      | None => None
      end
  end.

(** The storages an order can be in: the constructor's, and what a
    completed call makes of one of them. *)
Inductive reachable : Storage -> Prop :=
| reachable_constructor base product amount creator :
    reachable (constructor base product amount creator)
| reachable_call s c e s' :
    reachable s -> call c e s = Some s' -> reachable s'.

End OrderV1.

(* ================================================================== *)
(** * The transition table of the design document (section 4.1) *)
(* ================================================================== *)

Module Table.

Import OrderV1.

Inductive Role : Type :=
| Farmer | Auditor | Warehouse | Distributor | Supermarket.

(** Column "Required role". *)
Definition role (t : Transition) : Role :=
  match t with
  | Approve => Farmer
  | Validated => Auditor
  | StoreAuditDocument => Auditor
  | WarehouseReceivedOrder => Warehouse
  | WarehouseReleasedOrder => Warehouse
  | ReceivedAndInTransit => Distributor
  | ConfirmDelivery => Supermarket
  end.

(** Column "Precondition". *)
Definition precondition (t : Transition) : State :=
  match t with
  | Approve => Ordered
  | Validated => Approved
  | StoreAuditDocument => Audited
  | WarehouseReceivedOrder => Audited
  | WarehouseReleasedOrder => AtWarehouse
  | ReceivedAndInTransit => WarehouseReleased
  | ConfirmDelivery => InTransit
  end.

(** Column "History label". *)
Definition label (t : Transition) : string :=
  match t with
  | Approve => "Approved"
  | Validated => "Audited"
  | StoreAuditDocument => "Stored document"
  | WarehouseReceivedOrder => "Received"
  | WarehouseReleasedOrder => "Released"
  | ReceivedAndInTransit => "In Transit"
  | ConfirmDelivery => "Confirmed Delivery"
  end.

(** Column "New state"; [None] stands for "unchanged". *)
Definition new_state (t : Transition) : option State :=
  match t with
  | Approve => Some Approved
  | Validated => Some Audited
  | StoreAuditDocument => None
  | WarehouseReceivedOrder => Some AtWarehouse
  | WarehouseReleasedOrder => Some WarehouseReleased
  | ReceivedAndInTransit => Some InTransit
  | ConfirmDelivery => Some Delivered
  end.

(** The address configured for a role. *)
Definition configured (r : Role) (c : AC.t) : address :=
  match r with
  | Farmer => AC.farmer c
  | Auditor => AC.auditor c
  | Warehouse => AC.warehouse c
  | Distributor => AC.distributor c
  | Supermarket => AC.supermarket c
  end.

(** The caller holds the role. *)
Definition holds (r : Role) (e : Env) (s : Storage) : bool :=
  msg_sender e =? configured r (acl s).

(** The role check of a call, as the table has it. *)
Definition role_check (c : Call) (e : Env) (s : Storage) : bool :=
  match c with
  | Do t => holds (role t) e s
  | Revoke => holds Farmer e s || holds Auditor e s
  | SetOwners _ _ _ _ _ => true
  | UpdateLocation _ _ => AC.is_owner (msg_sender e) (acl s)
  end.

(** The state-precondition check of a call, as the table has it. *)
Definition state_check (c : Call) (s : Storage) : bool :=
  match c with
  | Do t => State_eqb (state s) (precondition t)
  | _ => true
  end.

(** The history entry the table promises for a transition. *)
Definition entry (t : Transition) (e : Env) : Record_ :=
  mkRecord (msg_sender e) (to_bytes32 (label t)) (to_uint32 (now e)).

(** The state the table promises after a call made in state [st]. *)
Definition successor (c : Call) (st : State) : State :=
  match c with
  | Do t => match new_state t with Some st' => st' | None => st end
  | Revoke => Revoked
  | _ => st
  end.



(** The history entries the table promises for a sequence of calls. *)
Definition entries (cs : list (Call * Env)) : list Record_ :=
  flat_map (fun ce =>
    match fst ce with
    | Do t => [entry t (snd ce)]
    | _ => []
    end) cs.

(** The actor and label of every recording call of a sequence, in call
    order. *)
Definition recorded (cs : list (Call * Env)) : list (address * string) :=
  flat_map (fun ce =>
    match fst ce with
    | Do t => [(msg_sender (snd ce), label t)]
    | _ => []
    end) cs.

End Table.

(* ================================================================== *)
(** * The lifecycle as the history shows it *)
(* ================================================================== *)

Module Lifecycle.

Import OrderV1.

(** The labels the state-changing transitions write, in the order of the
    states they lead to. *)
Definition labels : list string :=
  ["Approved"; "Audited"; "Received"; "Released"; "In Transit";
   "Confirmed Delivery"].

(** The record [storeAuditDocument] writes. *)
Definition is_document (r : Record_) : bool :=
  String.eqb (action r) (to_bytes32 "Stored document").

(** The actions of a history, the stored documents left out. *)
Definition milestones (h : list Record_) : list bytes32 :=
  map action (filter (fun r => negb (is_document r)) h).

(** The six state-changing transitions, each called by the address
    configured for its role, at the block times [at_ 0 .. at_ 5]. *)
Definition delivery_by (c : AC.t) (at_ : nat -> Z) : list (Call * Env) :=
  [ (Do Approve, mkEnv (AC.farmer c) (at_ 0%nat));
    (Do Validated, mkEnv (AC.auditor c) (at_ 1%nat));
    (Do WarehouseReceivedOrder, mkEnv (AC.warehouse c) (at_ 2%nat));
    (Do WarehouseReleasedOrder, mkEnv (AC.warehouse c) (at_ 3%nat));
    (Do ReceivedAndInTransit, mkEnv (AC.distributor c) (at_ 4%nat));
    (Do ConfirmDelivery, mkEnv (AC.supermarket c) (at_ 5%nat)) ].

(** The locations a sequence of calls records: one for each
    [updateLocation], under its caller's address, in call order. *)
Definition located (cs : list (Call * Env)) : list Location :=
  flat_map (fun ce =>
    match fst ce with
    | UpdateLocation la lo => [mkLocation la lo (msg_sender (snd ce))]
    | _ => []
    end) cs.

(** The string has no NUL character. *)
Fixpoint no_NUL (s : string) : bool :=
  match s with
  | EmptyString => true
  | String c rest => negb (Ascii.eqb c NUL) && no_NUL rest
  end.

End Lifecycle.

(* ================================================================== *)
(** * Promises *)
(* ================================================================== *)

Module Promise.

Definition Error : Type := string.

(** What becomes of a promise: it never settles, or it settles at some
    instant of the event loop, with a value or with a reason. *)
Inductive t (A : Type) : Type :=
| Pending
| Fulfilled (instant : nat) (value : A)
| Rejected (instant : nat) (reason : Error).

Arguments Pending {A}.
Arguments Fulfilled {A} instant value.
Arguments Rejected {A} instant reason.

(** [Promise.resolve(v)], and a plain value returned from a callback. *)
Definition resolve {A} (v : A) : t A := Fulfilled 0 v.

(** A promise made at instant [i] settles no earlier than [i]. *)
Definition not_before {A} (i : nat) (p : t A) : t A :=
  match p with
  | Pending => Pending
  | Fulfilled j v => Fulfilled (Nat.max i j) v
  | Rejected j r => Rejected (Nat.max i j) r
  end.

(** [p.then(k)]: the callback runs when [p] is fulfilled and its result
    is adopted; a rejection passes through. *)
Definition then_ {A B} (p : t A) (k : A -> t B) : t B :=
  match p with
  | Pending => Pending
  | Fulfilled i v => not_before i (k v)
  | Rejected i r => Rejected i r
  end.

(** The rejection that settles first, the one of lower index winning
    among those of one instant. *)
Fixpoint first_rejection {A} (ps : list (t A)) : option (nat * Error) :=
  match ps with
  | [] => None
  | p :: ps' =>
      match p, first_rejection ps' with
      | Rejected i r, Some (j, r') =>
          if (j <? i)%nat then Some (j, r') else Some (i, r)
      | Rejected i r, None => Some (i, r)
      | _, later => later
      end
  end.

(** The values of the promises in the order of the array, and the
    instant at which the last of them is there. *)
Fixpoint values {A} (ps : list (t A)) : option (nat * list A) :=
  match ps with
  | [] => Some (O, [])
  | Fulfilled i v :: ps' =>
      match values ps' with
      | Some (j, vs) => Some (Nat.max i j, v :: vs)
      | None => None
      end
  | _ :: _ => None
  end.

(** [Promise.all(ps)]: rejected as soon as one of [ps] is, fulfilled
    with the values by index once all of them are. *)
Definition all {A} (ps : list (t A)) : t (list A) :=
  match first_rejection ps with
  | Some (i, r) => Rejected i r
  | None =>
      match values ps with
      | Some (i, vs) => Fulfilled i vs
      | None => Pending
      end
  end.

(** The promise is fulfilled, at some instant, with the value [v]. *)
Definition settled_with {A} (p : t A) (v : A) : Prop :=
  exists i, p = Fulfilled i v.

(** The value of a fulfilled promise, [d] standing in for none. *)
Definition value_or {A} (d : A) (p : t A) : A :=
  match p with Fulfilled _ v => v | _ => d end.

Definition is_fulfilled {A} (p : t A) : bool :=
  match p with Fulfilled _ _ => true | _ => false end.

Definition is_rejected {A} (p : t A) : bool :=
  match p with Rejected _ _ => true | _ => false end.

(** The callbacks of fulfilled promises run in the order in which the
    promises settle, those of one instant in the order given. *)
Definition ran {W} (ps : list (t W)) : list (nat * W) :=
  flat_map (fun p => match p with Fulfilled i w => [(i, w)] | _ => [] end)
           ps.

Fixpoint enqueue {W} (x : nat * W) (q : list (nat * W)) : list (nat * W) :=
  match q with
  | [] => [x]
  | y :: q' =>
      if (fst x <=? fst y)%nat then x :: y :: q' else y :: enqueue x q'
  end.

Definition by_instant {W} (l : list (nat * W)) : list (nat * W) :=
  fold_right enqueue [] l.

(** What a call of a function comes to: the value it returns, or the
    error it throws. *)
Inductive Completion (A : Type) : Type :=
| Returns (value : A)
| Throws (reason : Error).

Arguments Returns {A} value.
Arguments Throws {A} reason.

(** A [then] callback that returns a value fulfils the promise of the
    [then]; one that throws rejects it. *)
Definition completed {A} (c : Completion A) : t A :=
  match c with
  | Returns v => resolve v
  | Throws r => Rejected 0 r
  end.

End Promise.

(* ================================================================== *)
(** * The gateway (blockchain.service.ts) *)
(* ================================================================== *)

Module Gateway.

(** The value of a byte. *)
Definition byte (c : ascii) : Z := Z.of_N (N_of_ascii c).

Definition hex_digit (d : Z) : ascii :=
  if d <? 10 then ascii_of_N (Z.to_N (48 + d))
  else ascii_of_N (Z.to_N (55 + d)).

(** [n.toString(16).toUpperCase()] of a number of four hexadecimal
    digits. *)
Definition hex4 (n : Z) : string :=
  String (hex_digit (n / 4096 mod 16))
    (String (hex_digit (n / 256 mod 16))
       (String (hex_digit (n / 16 mod 16))
          (String (hex_digit (n mod 16)) EmptyString))).

(** utf8.js, [readContinuationByte], on the byte it finds. *)
Definition continuation (c : ascii) : Promise.Completion Z :=
  let continuationByte := byte c in
  if Z.land continuationByte 192 =? 128
  then Promise.Returns (Z.land continuationByte 63)
  else Promise.Throws "Error: Invalid continuation byte".

(** utf8.js, [checkScalarValue]. *)
Definition checkScalarValue (codePoint : Z) : Promise.Completion unit :=
  if (55296 <=? codePoint) && (codePoint <=? 57343)
  then Promise.Throws
         (String.append "Error: Lone surrogate U+"
            (String.append (hex4 codePoint) " is not a scalar value"))
  else Promise.Returns tt.

(** One more code point before those of the rest. *)
Definition symbol (codePoint : Z) (rest : Promise.Completion (list Z))
  : Promise.Completion (list Z) :=
  match rest with
  | Promise.Returns codePoints => Promise.Returns (codePoint :: codePoints)
  | Promise.Throws r => Promise.Throws r
  end.

(** utf8.js, [utf8decode] with its [decodeSymbol]: the code points of a
    byte string, symbol by symbol; it throws at the first byte sequence
    that is not well-formed UTF-8. *)
Fixpoint utf8decode (byteString : string) : Promise.Completion (list Z) :=
  match byteString with
  | EmptyString => Promise.Returns []
  | String c1 s1 =>
      let byte1 := byte c1 in
      if Z.land byte1 128 =? 0 then symbol byte1 (utf8decode s1)
      else if Z.land byte1 224 =? 192 then
        match s1 with
        | EmptyString => Promise.Throws "Error: Invalid byte index"
        | String c2 s2 =>
            match continuation c2 with
            | Promise.Throws r => Promise.Throws r
            | Promise.Returns byte2 =>
                let codePoint := Z.lor (Z.shiftl (Z.land byte1 31) 6) byte2 in
                if codePoint >=? 128
                then symbol codePoint (utf8decode s2)
                else Promise.Throws "Error: Invalid continuation byte"
            end
        end
      else if Z.land byte1 240 =? 224 then
        match s1 with
        | EmptyString => Promise.Throws "Error: Invalid byte index"
        | String c2 s2 =>
            match continuation c2 with
            | Promise.Throws r => Promise.Throws r
            | Promise.Returns byte2 =>
                match s2 with
                | EmptyString => Promise.Throws "Error: Invalid byte index"
                | String c3 s3 =>
                    match continuation c3 with
                    | Promise.Throws r => Promise.Throws r
                    | Promise.Returns byte3 =>
                        let codePoint :=
                          Z.lor (Z.lor (Z.shiftl (Z.land byte1 15) 12)
                                       (Z.shiftl byte2 6))
                                byte3 in
                        if codePoint >=? 2048 then
                          match checkScalarValue codePoint with
                          | Promise.Throws r => Promise.Throws r
                          | Promise.Returns _ => symbol codePoint (utf8decode s3)
                          end
                        else Promise.Throws "Error: Invalid continuation byte"
                    end
                end
            end
        end
      else if Z.land byte1 248 =? 240 then
        match s1 with
        | EmptyString => Promise.Throws "Error: Invalid byte index"
        | String c2 s2 =>
            match continuation c2 with
            | Promise.Throws r => Promise.Throws r
            | Promise.Returns byte2 =>
                match s2 with
                | EmptyString => Promise.Throws "Error: Invalid byte index"
                | String c3 s3 =>
                    match continuation c3 with
                    | Promise.Throws r => Promise.Throws r
                    | Promise.Returns byte3 =>
                        match s3 with
                        | EmptyString => Promise.Throws "Error: Invalid byte index"
                        | String c4 s4 =>
                            match continuation c4 with
                            | Promise.Throws r => Promise.Throws r
                            | Promise.Returns byte4 =>
                                let codePoint :=
                                  Z.lor
                                    (Z.lor
                                       (Z.lor (Z.shiftl (Z.land byte1 15) 18)
                                              (Z.shiftl byte2 12))
                                       (Z.shiftl byte3 6))
                                    byte4 in
                                if (65536 <=? codePoint)
                                   && (codePoint <=? 1114111)
                                then symbol codePoint (utf8decode s4)
                                else Promise.Throws "Error: Invalid UTF-8 detected"
                            end
                        end
                    end
                end
            end
        end
      else Promise.Throws "Error: Invalid UTF-8 detected"
  end.

(** The loop of [web3.toUtf8]: the bytes up to the first NUL. *)
Fixpoint terminated (hex : bytes32) : string :=
  match hex with
  | EmptyString => EmptyString
  | String c rest =>
      if Ascii.eqb c NUL then EmptyString else String c (terminated rest)
  end.

(** [web3.toUtf8] (web3 0.x): the bytes up to the first NUL, decoded as
    UTF-8; it throws when they are not well-formed.  A JavaScript string
    stands here as its UTF-8 bytes, so the bytes that decode stand for
    the string they decode to. *)
Definition toUtf8 (hex : bytes32) : Promise.Completion string :=
  let str := terminated hex in
  match utf8decode str with
  | Promise.Returns _ => Promise.Returns str
  | Promise.Throws r => Promise.Throws r
  end.

(** The Number nearest to a non-negative integer, ties going to the even
    significand: a double holds 53 bits of it. *)
Definition to_Number (x : Z) : Z :=
  let n := Z.log2 x in
  if n <? 53 then x
  else
    let sh := n - 52 in
    let q := Z.shiftr x sh in
    let r := Z.land x (Z.ones sh) in
    let half := Z.shiftl 1 (sh - 1) in
    Z.shiftl (if (half <? r) || ((r =? half) && Z.odd q) then q + 1 else q)
             sh.

(** The first decimal digit of a positive integer. *)
Fixpoint leading_digit (fuel : nat) (x : Z) : Z :=
  match fuel with
  | O => x
  | S fuel' => if x <? 10 then x else leading_digit fuel' (x / 10)
  end.

(** [parseInt(x, 10)] of a BigNumber: it is read through its text.  Below
    10^21 the text is the decimal numeral, read to the nearest Number;
    from 10^21 on the text is in exponent notation ([d.ddde+n]), of which
    [parseInt] reads the digit before the point. *)
Definition parseInt (x : Z) : Z :=
  let m := Z.abs x in
  Z.sgn x
  * (if m <? 10 ^ 21 then to_Number m
     else leading_digit (Z.to_nat (Z.log2 m)) m).

(** Modelled from the spec: [sequentialArray] of shared/utils.ts, which is
    not among the sources.  [sequentialArray(start, size)] is the window
    of [size] consecutive indices from [start] on, empty when [size] is
    not positive. *)
Definition sequentialArray (start size : Z) : list Z :=
  map (fun k => start + Z.of_nat k) (seq 0 (Z.to_nat size)).

Definition TxHash : Type := string.

Record SendDefaults : Type := mkSendDefaults {
  from_ : option address;
  gas : string
}.

(** What a web3 contract instance answers.  A read or a send hands its
    error or its value to the callback; [method name] is the member
    [contract[name]], absent when the ABI has no such function. *)
Module Contract.
Record t : Type := mk {
  meta : Promise.t (bytes32 * Z * bool);
  state : Promise.t Z;
  getHistoryLength : Promise.t Z;
  history : Z -> Promise.t (address * bytes32 * Z);
  setOwners : list (option address) -> SendDefaults -> Promise.t TxHash;
  method : string -> option (list Z -> SendDefaults -> Promise.t TxHash)
}.
End Contract.

Record OrderHistory : Type := mkOrderHistory {
  action : string;
  owner : address;
  transactionId : string
}.

(** The order model of order/order.ts, by the fields the service writes;
    [None] is a field still undefined. *)
Module Order.
Record t : Type := mk {
  id : address;
  contract : Contract.t;
  history : option (list OrderHistory);
  amount : option Z;
  product : option string;
  status : option Z;
  statusLabel : option string
}.

Definition set_history (h : list OrderHistory) (o : t) : t :=
  mk (id o) (contract o) (Some h) (amount o) (product o) (status o)
     (statusLabel o).
Definition set_amount (a : Z) (o : t) : t :=
  mk (id o) (contract o) (history o) (Some a) (product o) (status o)
     (statusLabel o).
Definition set_product (p : string) (o : t) : t :=
  mk (id o) (contract o) (history o) (amount o) (Some p) (status o)
     (statusLabel o).
Definition set_status (s : Z) (o : t) : t :=
  mk (id o) (contract o) (history o) (amount o) (product o) (Some s)
     (statusLabel o).
Definition set_statusLabel (l : option string) (o : t) : t :=
  mk (id o) (contract o) (history o) (amount o) (product o) (status o) l.

(** Every field the hydration writes is there. *)
Definition populated (o : t) : bool :=
  match history o, amount o, product o, status o with
  | Some _, Some _, Some _, Some _ => true
  | _, _, _, _ => false
  end.
End Order.

Record OrdersResponse : Type := mkOrdersResponse {
  orders_ : list Order.t;
  total : Z
}.

(** The remote node as web3 shows it: the accounts, the registry contract
    and the order contract found at an address. *)
Record Web3 : Type := mkWeb3 {
  eth_getAccounts : Promise.t (list address);
  ordersContract_getAmount : Promise.t Z;
  ordersContract_orders : Z -> Promise.t address;
  eth_contract_at : address -> Contract.t
}.

(** The fields of the service object. *)
Record BlockchainService : Type := mkBlockchainService {
  web3 : Web3;
  from : option address;
  accounts : list address;
  sendDefaults : SendDefaults
}.

(** What a call of the service did besides returning its promise. *)
Record Effects : Type := mkEffects {
  console_error : list Promise.Error;
  updatedOrderSource : list Order.t;
  unhandled_rejection : list Promise.Error
}.

(** The service object as its constructor leaves it. *)
Definition new_BlockchainService (w : Web3) : BlockchainService :=
  mkBlockchainService w None [] (mkSendDefaults None "4400000").

(** The assignments of the callback of [getAccounts]. *)
Definition accounts_loaded (accs : list address) (this : BlockchainService)
  : BlockchainService :=
  let from' := nth_error accs 1 in
  mkBlockchainService (web3 this) from' accs
    (mkSendDefaults from' (gas (sendDefaults this))).

Section Service.

Import Promise.

(** The enum [OrderStatus] of order/order.ts, read by its number. *)
Variable OrderStatus : Z -> option string.

Variable this : BlockchainService.

(** [new Promise((resolve, reject) => call(callbackToResolve(resolve,
    reject)))] settles as the call answers. *)
Definition callbackToResolve {A} (answer : Promise.t A) : Promise.t A :=
  answer.

Definition getAccounts : Promise.t unit :=
  then_ (callbackToResolve (eth_getAccounts (web3 this)))
        (fun _ => resolve tt).

Definition servicePromise : Promise.t unit := getAccounts.

(** [callWithPromise(methodName, ...args)] on the registry contract. *)
Definition callWithPromise {A} (answer : Web3 -> Promise.t A)
  : Promise.t A :=
  then_ servicePromise (fun _ => callbackToResolve (answer (web3 this))).

Definition getHistoryLength (order : Order.t) : Promise.t Z :=
  callbackToResolve (Contract.getHistoryLength (Order.contract order)).

Definition getHistoryRecord (order : Order.t) (index : Z)
  : Promise.t OrderHistory :=
  then_ (callbackToResolve (Contract.history (Order.contract order) index))
        (fun record =>
           let '(who, act, _) := record in
           completed
             match toUtf8 act with
             | Returns action_ =>
                 Returns (mkOrderHistory action_ who "0x4534534534abec533")
             | Throws r => Throws r
             end).

Definition getHistory (order : Order.t) : Promise.t (list OrderHistory) :=
  then_ (getHistoryLength order) (fun historyLength =>
    if historyLength >? 0 then
      let historyIndices := sequentialArray 0 historyLength in
      let historyPromises := map (getHistoryRecord order) historyIndices in
      Promise.all historyPromises
    else
      resolve []).

(** The three loads write into the one [order] object, each when its
    read is there; the object is handed out once all three are.  (When
    [toUtf8] throws in the meta load, the amount is already written, into
    an object that is then never handed out.) *)
Definition buildOrder (contract : Contract.t) (address_ : address)
  : Promise.t Order.t :=
  let order := Order.mk address_ contract None None None None None in
  let loadHistory :=
    then_ (getHistory order) (fun history =>
      resolve (Order.set_history history)) in
  let loadMeta :=
    then_ (callbackToResolve (Contract.meta contract)) (fun meta =>
      let '(product, amount, _) := meta in
      completed
        match toUtf8 product with
        | Returns product_ =>
            Returns (fun o => Order.set_product product_
                                (Order.set_amount amount o))
        | Throws r => Throws r
        end) in
  let loadStatus :=
    then_ (callbackToResolve (Contract.state contract)) (fun status =>
      resolve (fun o => Order.set_statusLabel (OrderStatus status)
                          (Order.set_status (parseInt status) o))) in
  let loads := [loadHistory; loadMeta; loadStatus] in
  then_ (Promise.all loads) (fun _ =>
    resolve (fold_left (fun o w => snd w o) (by_instant (ran loads)) order)).

(** The model a hydration starts from. *)
Definition blank (c : Contract.t) (a : address) : Order.t :=
  Order.mk a c None None None None None.

(** The model a hydration ends with: the history rows, the amount and the
    decoded product of the meta data, the status and its label. *)
Definition filled (c : Contract.t) (a : address) (h : list OrderHistory)
  (product_ : string) (amount_ : Z) (st : Z) : Order.t :=
  Order.mk a c (Some h) (Some amount_) (Some product_)
           (Some (parseInt st)) (OrderStatus st).

Definition getOrderByAddress (address_ : address) : Promise.t Order.t :=
  let contract := eth_contract_at (web3 this) address_ in
  then_ (buildOrder contract address_) (fun order => resolve order).

Definition order (index : Z) : Promise.t address :=
  callWithPromise (fun w => ordersContract_orders w index).

Definition orderCount : Promise.t Z :=
  callWithPromise ordersContract_getAmount.

Definition getOrder (index : Z) : Promise.t Order.t :=
  then_ servicePromise (fun _ =>
    then_ (order index) (fun address_ => getOrderByAddress address_)).

(** [orders(startIndex = 0, pageSize = 20)] *)
Definition orders (startIndex pageSize : Z) : Promise.t OrdersResponse :=
  then_ orderCount (fun total =>
    if total >? 0 then
      let maxIndex := Z.min total (startIndex + pageSize) in
      let indices := sequentialArray startIndex (maxIndex - startIndex) in
      let orderPromises := map getOrder indices in
      then_ (Promise.all orderPromises) (fun orders =>
        resolve (mkOrdersResponse orders total))
    else
      resolve (mkOrdersResponse [] total)).

Definition setOwners (order : Order.t) (userAddress : option address)
  : Promise.t TxHash :=
  callbackToResolve
    (Contract.setOwners (Order.contract order) (repeat userAddress 5)
                        (sendDefaults this)).

(** [sendOrder(order, methodName, ...args)].  The executor of the outer
    promise returns the chain [setOwners(..).then(..)] and that return
    value is dropped: only the callback of the named method settles the
    outer promise.  A callback that finds no such member throws. *)
Definition sendOrder (order : Order.t) (methodName : string)
  (args : list Z) : Promise.t (option Order.t) * Effects :=
  let dropped :=
    then_ (setOwners order (from this)) (fun _ =>
      match Contract.method (Order.contract order) methodName with
      | Some f => resolve (f args (sendDefaults this))
      | None => Rejected 0 "TypeError: order.contract[methodName] is not a function"
      end) in
  let sent : Promise.t TxHash :=
    match dropped with
    | Fulfilled i answer => not_before i (callbackToResolve answer)
    | _ => Pending
    end in
  let chained :=
    then_ sent (fun _ =>
      then_ (getOrderByAddress (Order.id order)) (fun updatedOrder =>
        resolve updatedOrder)) in
  let caught :=
    match chained with
    | Pending => Pending
    | Fulfilled i updatedOrder => Fulfilled i (Some updatedOrder)
    | Rejected i _ => Fulfilled i None
    end in
  (caught,
   mkEffects
     (match chained with Rejected _ err => [err] | _ => [] end)
     (match chained with Fulfilled _ updatedOrder => [updatedOrder]
                       | _ => [] end)
     (match dropped with Rejected _ err => [err] | _ => [] end)).

Definition approveOrder (o : Order.t) := sendOrder o "approve" [].
Definition confirmDeliveryOrder (o : Order.t) :=
  sendOrder o "confirmDelivery" [].
Definition deliveredOrder (o : Order.t) := sendOrder o "delivered" [].
Definition receivedAndInTransitOrder (o : Order.t) :=
  sendOrder o "receivedAndInTransit" [].
Definition revokeOrder (o : Order.t) := sendOrder o "revoke" [].
Definition storeAuditDocumentOrder (o : Order.t) :=
  sendOrder o "storeAuditDocument" [].
Definition validatedOrder (o : Order.t) := sendOrder o "validated" [].
Definition verifyInTransitOrder (o : Order.t) :=
  sendOrder o "verifyInTransit" [].
Definition warehouseReceivedOrder (o : Order.t) :=
  sendOrder o "warehouseReceivedOrder" [].
Definition warehouseReleasedOrder (o : Order.t) :=
  sendOrder o "warehouseReleasedOrder" [].

End Service.

(* ================================================================== *)
(** * A deployed order seen through web3 *)
(* ================================================================== *)

(** The instants at which the node answers the reads. *)
Record Latency : Type := mkLatency {
  meta_at : nat;
  state_at : nat;
  getHistoryLength_at : nat;
  history_at : Z -> nat
}.

(** The getter of a public array reverts beyond its length. *)
Definition history_getter (l : Latency) (s : OrderV1.Storage) (i : Z)
  : Promise.t (address * bytes32 * Z) :=
  match (if 0 <=? i then nth_error (OrderV1.history s) (Z.to_nat i)
         else None) with
  | Some r =>
      Promise.Fulfilled (history_at l i)
        (OrderV1.who r, OrderV1.action r, OrderV1.when r)
  | None => Promise.Rejected (history_at l i) "invalid opcode"
  end.

(** The contract instance of an order whose storage is [s]: the public
    getters answer from [s]; what the sends answer is left open. *)
Definition deployed (l : Latency) (s : OrderV1.Storage)
  (setOwners_ : list (option address) -> SendDefaults -> Promise.t TxHash)
  (method_ : string -> option (list Z -> SendDefaults -> Promise.t TxHash))
  : Contract.t :=
  Contract.mk
    (Promise.Fulfilled (meta_at l)
       (OrderV1.product (OrderV1.meta s), OrderV1.amount (OrderV1.meta s),
        OrderV1.revoked (OrderV1.meta s)))
    (Promise.Fulfilled (state_at l) (OrderV1.State_code (OrderV1.state s)))
    (Promise.Fulfilled (getHistoryLength_at l) (OrderV1.getHistoryLength s))
    (history_getter l s)
    setOwners_
    method_.

(** The reads a hydration issues against a contract instance: [meta],
    [state], [getHistoryLength] and, once the length [n] is there,
    [history(i)] for the indices [0 .. n-1]. *)
Definition reads_succeed (c : Contract.t) : bool :=
  Promise.is_fulfilled (Contract.meta c)
  && Promise.is_fulfilled (Contract.state c)
  && match Contract.getHistoryLength c with
     | Promise.Fulfilled _ n =>
         forallb (fun i => Promise.is_fulfilled (Contract.history c i))
                 (sequentialArray 0 n)
     | _ => false
     end.

Definition a_read_fails (c : Contract.t) : bool :=
  Promise.is_rejected (Contract.meta c)
  || Promise.is_rejected (Contract.state c)
  || match Contract.getHistoryLength c with
     | Promise.Fulfilled _ n =>
         existsb (fun i => Promise.is_rejected (Contract.history c i))
                 (sequentialArray 0 n)
     | Promise.Rejected _ _ => true
     | Promise.Pending => false
     end.

(** The history row the service makes of a record of the contract, when
    its action decodes. *)
Definition record_row (record : address * bytes32 * Z)
  : Promise.Completion OrderHistory :=
  match toUtf8 (snd (fst record)) with
  | Promise.Returns action_ =>
      Promise.Returns
        (mkOrderHistory action_ (fst (fst record)) "0x4534534534abec533")
  | Promise.Throws r => Promise.Throws r
  end.

(** The row of an index whose entry is there and decodes. *)
Definition row_at (c : Contract.t) (i : Z) : OrderHistory :=
  match Contract.history c i with
  | Promise.Fulfilled _ record =>
      match record_row record with
      | Promise.Returns row_ => row_
      | Promise.Throws _ => mkOrderHistory EmptyString 0 EmptyString
      end
  | _ => mkOrderHistory EmptyString 0 EmptyString
  end.

(** The bytes are well-formed UTF-8. *)
Definition well_formed (str : string) : bool :=
  match utf8decode str with
  | Promise.Returns _ => true
  | Promise.Throws _ => false
  end.

(** [web3.toUtf8] does not throw on the bytes. *)
Definition decodable (hex : bytes32) : bool :=
  match toUtf8 hex with
  | Promise.Returns _ => true
  | Promise.Throws _ => false
  end.

(** Every text among the answers a hydration reads decodes: the product
    and the action of each history entry below the length. *)
Definition texts_decode (c : Contract.t) : bool :=
  match Contract.meta c with
  | Promise.Fulfilled _ m => decodable (fst (fst m))
  | _ => true
  end
  && match Contract.getHistoryLength c with
     | Promise.Fulfilled _ n =>
         forallb (fun i =>
                    match Contract.history c i with
                    | Promise.Fulfilled _ record =>
                        decodable (snd (fst record))
                    | _ => true
                    end)
                 (sequentialArray 0 n)
     | _ => true
     end.

(** The history row the service makes of an actor and a label. *)
Definition row (who_label : address * string) : OrderHistory :=
  mkOrderHistory (snd who_label) (fst who_label) "0x4534534534abec533".

End Gateway.

(* ================================================================== *)
(** * The gateway: creating an order *)
(* ================================================================== *)

Module Creation.

Import Gateway.

(** [web3.fromUtf8]: the bytes of the string up to its first NUL (web3
    writes them in hexadecimal; the bytes stand for their digits here). *)
Fixpoint fromUtf8 (str : string) : string :=
  match str with
  | EmptyString => EmptyString
  | String c rest =>
      if Ascii.eqb c NUL then EmptyString else String c (fromUtf8 rest)
  end.

(** [createOrder(productType, quantity)].  The send to the registry is
    made once the accounts are there, with the defaults the callback of
    [getAccounts] has set; [ordersContract_create] is what the registry
    answers.  Beside the promise, the signals sent on [newOrderSource]. *)
Definition createOrder (this : BlockchainService)
  (ordersContract_create : string -> Z -> SendDefaults -> Promise.t address)
  (productType : string) (quantity : Z) : Promise.t address * list unit :=
  let created :=
    Promise.then_ (callbackToResolve (eth_getAccounts (web3 this)))
      (fun accs =>
         let this' := accounts_loaded accs this in
         Promise.then_
           (callbackToResolve
              (ordersContract_create (fromUtf8 productType) quantity
                                     (sendDefaults this')))
           (fun address_ => Promise.resolve address_)) in
  (created,
   match created with Promise.Fulfilled _ _ => [tt] | _ => [] end).

End Creation.

(* ================================================================== *)
(** * A worked order *)
(* ================================================================== *)

Module Sample.

Import OrderV1.

(** The access-control storage the sample order starts with. *)
Definition base : AC.t := AC.mk 0 1 2 3 4 5 [0; 0; 0; 0; 0].

Definition fresh : Storage := constructor base (to_bytes32 "Apples") 10 9.

Definition by_ (who_ : address) (t : Z) : Env := mkEnv who_ t.

(** The whole lifecycle up to the delivery. *)
Definition delivery : list (Call * Env) :=
  [ (Do Approve, by_ 1 1000);
    (Do Validated, by_ 2 1001);
    (Do StoreAuditDocument, by_ 2 1002);
    (Do WarehouseReceivedOrder, by_ 3 1003);
    (Do WarehouseReleasedOrder, by_ 3 1004);
    (Do ReceivedAndInTransit, by_ 4 1005);
    (Do ConfirmDelivery, by_ 5 (2 ^ 32 + 6)) ].

Definition delivered : Storage :=
  match run delivery fresh with Some s => s | None => fresh end.

(** The order that has gone through the first [k] calls of the lifecycle. *)
Definition after (k : Z) : Storage :=
  match run (firstn (Z.to_nat k) delivery) fresh with
  | Some s => s
  | None => fresh
  end.

(** A node that answers later reads sooner. *)
Definition latency : Gateway.Latency :=
  Gateway.mkLatency 30 10 20 (fun i => Z.to_nat (9 - i)).

Definition accepted : list (option address) -> Gateway.SendDefaults
                      -> Promise.t Gateway.TxHash :=
  fun _ _ => Promise.Fulfilled 40 "0xa1".

Definition refused : list (option address) -> Gateway.SendDefaults
                     -> Promise.t Gateway.TxHash :=
  fun _ _ => Promise.Rejected 40 "Error: Invalid JSON RPC response".

(** The members a contract instance has for the functions of OrderV1. *)
Definition members (name : string)
  : option (list Z -> Gateway.SendDefaults -> Promise.t Gateway.TxHash) :=
  if existsb (String.eqb name)
       ["approve"; "validated"; "storeAuditDocument";
        "warehouseReceivedOrder"; "warehouseReleasedOrder";
        "receivedAndInTransit"; "confirmDelivery"; "revoke"]
  then Some (fun _ _ => Promise.Fulfilled 50 "0xb2")
  else None.

(** A registry of five orders at the addresses 100 .. 104, the order at
    index [k] having gone through [k] calls; later indices resolve
    sooner. *)
Definition node : Gateway.Web3 :=
  Gateway.mkWeb3
    (Promise.Fulfilled 1 [7; 8])
    (Promise.Fulfilled 2 5)
    (fun i => if (0 <=? i) && (i <? 5)
              then Promise.Fulfilled (Z.to_nat (60 - i)) (100 + i)
              else Promise.Rejected 3 "invalid opcode")
    (fun a => Gateway.deployed latency (after (a - 100)) accepted members).

Definition empty_node : Gateway.Web3 :=
  Gateway.mkWeb3
    (Promise.Fulfilled 1 [7; 8])
    (Promise.Fulfilled 2 0)
    (fun i => Promise.Rejected 3 "invalid opcode")
    (fun a => Gateway.deployed latency fresh accepted members).

Definition service : Gateway.BlockchainService :=
  Gateway.accounts_loaded [7; 8] (Gateway.new_BlockchainService node).

Definition OrderStatus (status : Z) : option string :=
  nth_error ["Ordered"; "Approved"; "Audited"; "AtWarehouse";
             "WarehouseReleased"; "InTransit"; "Delivered"; "Revoked"]
            (Z.to_nat status).

(** The hydrated order at an index of the sample registry. *)
Definition hydrated (i : Z) : Gateway.Order.t :=
  Promise.value_or
    (Gateway.Order.mk 0 (Gateway.eth_contract_at node 0)
       None None None None None)
    (Gateway.getOrder OrderStatus service i).

(** An order model whose contract instance cannot send [setOwners]. *)
Definition cut_off : Gateway.Order.t :=
  Gateway.Order.mk 100
    (Gateway.deployed latency fresh refused members)
    None None None None None.

(** An order model of the sample registry. *)
Definition listed : Gateway.Order.t :=
  Gateway.Order.mk 100 (Gateway.eth_contract_at node 100)
    None None None None None.

(** A node whose registry is there and whose accounts cannot be read. *)
Definition no_accounts_node : Gateway.Web3 :=
  Gateway.mkWeb3
    (Promise.Rejected 1 "Error: Invalid JSON RPC response")
    (Gateway.ordersContract_getAmount node)
    (Gateway.ordersContract_orders node)
    (Gateway.eth_contract_at node).

(** A registry of five orders the third of which cannot be hydrated: the
    read of its state fails. *)
Definition broken_node : Gateway.Web3 :=
  Gateway.mkWeb3
    (Gateway.eth_getAccounts node)
    (Gateway.ordersContract_getAmount node)
    (Gateway.ordersContract_orders node)
    (fun a =>
       if a =? 102
       then Gateway.Contract.mk
              (Gateway.Contract.meta (Gateway.eth_contract_at node a))
              (Promise.Rejected 5 "Error: timeout")
              (Gateway.Contract.getHistoryLength
                 (Gateway.eth_contract_at node a))
              (Gateway.Contract.history (Gateway.eth_contract_at node a))
              accepted members
       else Gateway.eth_contract_at node a).

(** An order without history whose history getter answers nothing but
    errors. *)
Definition unread : Gateway.Contract.t :=
  Gateway.Contract.mk
    (Promise.Fulfilled 3 (to_bytes32 "Pears", 4, false))
    (Promise.Fulfilled 1 0)
    (Promise.Fulfilled 2 0)
    (fun _ => Promise.Rejected 1 "invalid opcode")
    accepted members.

(** A registry that accepts a new order, and one that refuses it. *)
Definition creates : string -> Z -> Gateway.SendDefaults
                     -> Promise.t address :=
  fun _ _ _ => Promise.Fulfilled 70 105.

Definition refuses : string -> Z -> Gateway.SendDefaults
                     -> Promise.t address :=
  fun _ _ _ => Promise.Rejected 70 "Error: out of gas".

(** A run in which the owner slots are handed to the account 8, which
    records a location before the approval and one after it. *)
Definition tracked : list (Call * Env) :=
  [ (SetOwners 8 8 8 8 8, by_ 8 900);
    (UpdateLocation (to_bytes32 "52.52") (to_bytes32 "13.40"), by_ 8 901);
    (Do Approve, by_ 1 1000);
    (UpdateLocation (to_bytes32 "48.14") (to_bytes32 "11.58"), by_ 8 1001) ].

Definition tracked_order : Storage :=
  match run tracked fresh with Some s => s | None => fresh end.

(** An order whose product is the single byte 255, which is no UTF-8. *)
Definition garbled : Storage :=
  constructor base (to_bytes32 (String (ascii_of_N 255) EmptyString)) 1 9.

(** The addresses of a page and its total. *)
Definition listing (p : Promise.t Gateway.OrdersResponse)
  : option (list address * Z) :=
  match p with
  | Promise.Fulfilled _ r =>
      Some (map Gateway.Order.id (Gateway.orders_ r), Gateway.total r)
  | _ => None
  end.

End Sample.

(* ================================================================== *)
(** * Properties of the ledger *)
(* ================================================================== *)

Section LedgerProperties.

Import OrderV1.

Lemma State_eqb_eq (a b : State) : State_eqb a b = true <-> a = b.
Proof.
  unfold State_eqb; destruct (State_eq_dec a b); split; congruence.
Qed.

Lemma State_eqb_refl (a : State) : State_eqb a a = true.
Proof. now apply State_eqb_eq. Qed.

Lemma State_eqb_neq (a b : State) : State_eqb a b = false <-> a <> b.
Proof.
  unfold State_eqb; destruct (State_eq_dec a b); split; congruence.
Qed.

(** A guarded body runs exactly when the check passes. *)
Lemma guarded_pass check body e s :
  check e s = true -> guarded check body e s = body e s.
Proof. intros H; unfold guarded, bind, require; now rewrite H. Qed.

Lemma guarded_fail check body e s :
  check e s = false -> guarded check body e s = None.
Proof. intros H; unfold guarded, bind, require; now rewrite H. Qed.

Lemma guarded_inv check body e s r :
  guarded check body e s = Some r -> check e s = true /\ body e s = Some r.
Proof.
  unfold guarded, bind, require; destruct (check e s); [auto | discriminate].
Qed.

Lemma inState_pass st body e s :
  state s = st -> inState st body e s = body e s.
Proof.
  intros H; unfold inState; apply guarded_pass; now apply State_eqb_eq.
Qed.

Arguments to_bytes32 : simpl never.
Arguments to_uint32 : simpl never.

Ltac unfold_calls :=
  unfold call, dispatch, transition, approve, validated, storeAuditDocument,
    warehouseReceivedOrder, warehouseReleasedOrder, receivedAndInTransit,
    confirmDelivery, revoke, updateLocation, setOwners,
    onlyFarmer, onlyAuditor, onlyWarehouse, onlyDistributor,
    onlySupermarket, onlyFarmerOrAuditor, onlyContractOwners in *.

Ltac run_body :=
  unfold bind, addRecord, update, update_with, set_history, set_state,
    set_meta, set_revoked, set_locationHistory, set_acl; cbn.

Ltac run_body_in D :=
  unfold bind, addRecord, update, update_with, set_history, set_state,
    set_meta, set_revoked, set_locationHistory, set_acl in D; cbn in D.

(** What a completed call has done to the storage, call by call. *)
Lemma call_effect c e s s' :
  call c e s = Some s' ->
  Table.role_check c e s = true /\
  Table.state_check c s = true /\
  s' = match c with
       | Do t =>
           mkStorage (acl s) (meta s) (history s ++ [Table.entry t e])
             (locationHistory s) (Table.successor (Do t) (state s))
             (subState s)
       | Revoke =>
           mkStorage (acl s) (mkMeta (product (meta s)) (amount (meta s)) true)
             (history s) (locationHistory s) Revoked (subState s)
       | SetOwners a1 a2 a3 a4 a5 =>
           mkStorage (AC.set_owners [a1; a2; a3; a4; a5] (acl s)) (meta s)
             (history s) (locationHistory s) (state s) (subState s)
       | UpdateLocation la lo =>
           mkStorage (acl s) (meta s) (history s)
             (locationHistory s ++ [mkLocation la lo (msg_sender e)])
             (state s) (subState s)
       end.
Proof.
  unfold call; intros H.
  destruct (dispatch c e s) as [[u s1] |] eqn:D; [| discriminate].
  injection H as ->.
  destruct c as [t | | a1 a2 a3 a4 a5 | la lo].
  - destruct t; unfold_calls;
      apply guarded_inv in D as [G D]; unfold inState in D;
      apply guarded_inv in D as [G' D]; run_body_in D;
      inversion D; subst; clear D;
      (split; [exact G | split; [exact G' | reflexivity]]).
  - unfold_calls; apply guarded_inv in D as [G D]; run_body_in D;
      inversion D; subst; clear D; auto.
  - unfold_calls; run_body_in D; inversion D; subst; clear D; auto.
  - unfold_calls; apply guarded_inv in D as [G D]; run_body_in D;
      inversion D; subst; clear D; auto.
Qed.

(** A call whose two checks pass completes. *)
Lemma call_completes c e s :
  Table.role_check c e s = true ->
  Table.state_check c s = true ->
  exists s', call c e s = Some s'.
Proof.
  intros R S.
  destruct c as [t | | a1 a2 a3 a4 a5 | la lo]; cbn in R, S.
  - destruct t; unfold_calls; unfold inState;
      rewrite guarded_pass by exact R; rewrite guarded_pass by exact S;
      run_body; eauto.
  - unfold_calls; rewrite guarded_pass by exact R; run_body; eauto.
  - unfold_calls; run_body; eauto.
  - unfold_calls; rewrite guarded_pass by exact R; run_body; eauto.
Qed.

(** A call one of whose checks fails reverts. *)
Lemma call_reverts c e s :
  Table.role_check c e s = false \/ Table.state_check c s = false ->
  call c e s = None.
Proof.
  intros H.
  destruct (call c e s) as [s' |] eqn:C; [| reflexivity].
  apply call_effect in C as (R & S & _).
  destruct H; congruence.
Qed.

Lemma transact_completed c e s s' :
  call c e s = Some s' -> transact c e s = (true, s').
Proof. unfold transact; now intros ->. Qed.

Lemma transact_reverted c e s :
  call c e s = None -> transact c e s = (false, s).
Proof. unfold transact; now intros ->. Qed.

(** C1. A recording transition called by the holder of its role on an
    order in its precondition state goes through, appends exactly one
    history record, made of the caller's address and the label of the
    table, and moves the order to the successor state of the table;
    [storeAuditDocument] appends its record and leaves the state as it
    was. *)
Theorem transition_records_and_moves (t : Transition) (e : Env) (s : Storage) :
  Table.holds (Table.role t) e s = true ->
  state s = Table.precondition t ->
  exists s',
    transact (Do t) e s = (true, s') /\
    history s' =
      history s ++ [mkRecord (msg_sender e) (to_bytes32 (Table.label t))
                             (to_uint32 (now e))] /\
    List.length (history s') = S (List.length (history s)) /\
    state s' = match Table.new_state t with
               | Some st => st
               | None => state s
               end /\
    meta s' = meta s /\
    locationHistory s' = locationHistory s.
Proof.
  intros R S.
  assert (S' : Table.state_check (Do t) s = true)
    by (cbn; apply State_eqb_eq; exact S).
  destruct (call_completes (Do t) e s R S') as [s' C].
  exists s'. split; [now apply transact_completed |].
  apply call_effect in C as (_ & _ & ->); cbn.
  repeat split; try reflexivity.
  rewrite length_app; cbn; lia.
Qed.

Lemma transition_records_and_moves_witness :
  exists s',
    transact (Do Approve) (Sample.by_ 1 1000) Sample.fresh = (true, s') /\
    history s' =
      history Sample.fresh ++ [mkRecord 1 (to_bytes32 "Approved") 1000] /\
    List.length (history s') = S (List.length (history Sample.fresh)) /\
    state s' = Approved /\
    meta s' = meta Sample.fresh /\
    locationHistory s' = locationHistory Sample.fresh.
Proof.
  apply (transition_records_and_moves Approve (Sample.by_ 1 1000)
           Sample.fresh); reflexivity.
Defined.

(** C2. A call whose role check fails, or which finds the order in a
    state other than its precondition state, is rejected, and the whole
    storage of the order (state, meta and history among it) is what it
    was before the call. *)
Theorem failed_check_rejects_whole_call (c : Call) (e : Env) (s : Storage) :
  Table.role_check c e s = false \/ Table.state_check c s = false ->
  transact c e s = (false, s) /\
  state (snd (transact c e s)) = state s /\
  meta (snd (transact c e s)) = meta s /\
  history (snd (transact c e s)) = history s.
Proof.
  intros H. apply call_reverts in H.
  rewrite (transact_reverted _ _ _ H); auto.
Qed.

Lemma failed_check_rejects_whole_call_witness :
  transact (Do Validated) (Sample.by_ 2 1000) Sample.fresh
    = (false, Sample.fresh) /\
  state (snd (transact (Do Validated) (Sample.by_ 2 1000) Sample.fresh))
    = state Sample.fresh /\
  meta (snd (transact (Do Validated) (Sample.by_ 2 1000) Sample.fresh))
    = meta Sample.fresh /\
  history (snd (transact (Do Validated) (Sample.by_ 2 1000) Sample.fresh))
    = history Sample.fresh.
Proof.
  apply (failed_check_rejects_whole_call (Do Validated) (Sample.by_ 2 1000)
           Sample.fresh).
  right; reflexivity.
Defined.

(** The claim C3, as stated, fails on the code: the sample order, taken
    through its whole lifecycle to [Delivered], is revoked by the farmer's
    call, which goes through. *)
Lemma revoke_reaches_Revoked_from_Delivered :
  run Sample.delivery Sample.fresh = Some Sample.delivered /\
  state Sample.delivered = Delivered /\
  Table.role_check Revoke (Sample.by_ 1 2000) Sample.delivered = true /\
  fst (transact Revoke (Sample.by_ 1 2000) Sample.delivered) = true /\
  state (snd (transact Revoke (Sample.by_ 1 2000) Sample.delivered))
    = Revoked.
Proof.
  split; [| split; [| split; [| split]]]; vm_compute; reflexivity.
Qed.

(** C3, amended. [revoke] called by the farmer or the auditor goes through
    from every state, [Delivered] included: it sets the state to [Revoked]
    and [meta.revoked] to true, records no history entry and leaves the
    product and the amount alone. *)
Theorem revoke_from_every_state (e : Env) (s : Storage) :
  Table.role_check Revoke e s = true ->
  exists s',
    transact Revoke e s = (true, s') /\
    state s' = Revoked /\
    revoked (meta s') = true /\
    history s' = history s /\
    product (meta s') = product (meta s) /\
    amount (meta s') = amount (meta s).
Proof.
  intros R.
  destruct (call_completes Revoke e s R eq_refl) as [s' C].
  exists s'. split; [now apply transact_completed |].
  apply call_effect in C as (_ & _ & ->); cbn; auto 6.
Qed.

Lemma revoke_from_every_state_witness :
  exists s',
    transact Revoke (Sample.by_ 2 2000) Sample.delivered = (true, s') /\
    state s' = Revoked /\
    revoked (meta s') = true /\
    history s' = history Sample.delivered /\
    product (meta s') = product (meta Sample.delivered) /\
    amount (meta s') = amount (meta Sample.delivered).
Proof.
  apply (revoke_from_every_state (Sample.by_ 2 2000) Sample.delivered).
  reflexivity.
Defined.

(** No recording transition starts from [Revoked] or ends there. *)
Lemma precondition_not_Revoked t : Table.precondition t <> Revoked.
Proof. destruct t; discriminate. Qed.

Lemma new_state_not_Revoked t : Table.new_state t <> Some Revoked.
Proof. destruct t; discriminate. Qed.

Lemma run_reachable cs : forall s s',
  reachable s -> run cs s = Some s' -> reachable s'.
Proof.
  induction cs as [| [c e] cs IH]; cbn; intros s s' R H.
  - now injection H as <-.
  - destruct (call c e s) as [s1 |] eqn:C; [| discriminate].
    eapply IH; [| exact H]. eapply reachable_call; eauto.
Qed.

(** C4. On every storage an order can reach from its constructor through
    completed calls, [meta.revoked] is true exactly when the state is
    [Revoked]. *)
Theorem revoked_flag_iff_Revoked (s : Storage) :
  reachable s -> (revoked (meta s) = true <-> state s = Revoked).
Proof.
  induction 1 as [base p a cr | s c e s' R IH C].
  - cbn; split; discriminate.
  - apply call_effect in C as (_ & S & ->).
    destruct c as [t | | a1 a2 a3 a4 a5 | la lo]; cbn in *;
      try exact IH; try tauto.
    apply State_eqb_eq in S.
    pose proof (precondition_not_Revoked t) as P.
    pose proof (new_state_not_Revoked t) as N.
    destruct (Table.new_state t) as [st |]; split; intros H.
    + apply IH in H; congruence.
    + congruence.
    + apply IH in H; congruence.
    + congruence.
Qed.

Lemma revoked_flag_iff_Revoked_witness :
  revoked (meta (snd (transact Revoke (Sample.by_ 1 2000) Sample.delivered)))
    = true
  <-> state (snd (transact Revoke (Sample.by_ 1 2000) Sample.delivered))
      = Revoked.
Proof.
  apply (revoked_flag_iff_Revoked
           (snd (transact Revoke (Sample.by_ 1 2000) Sample.delivered))).
  apply (run_reachable (Sample.delivery ++ [(Revoke, Sample.by_ 1 2000)])
           Sample.fresh).
  - apply reachable_constructor.
  - vm_compute; reflexivity.
Defined.

(** C5. Whatever the call (a transition, [revoke], [setOwners],
    [updateLocation]) and whether it goes through or is rejected, the
    history after it is the history before it with entries added at the
    end: it is no shorter and its old entries stand where they stood. *)
Theorem history_append_only (c : Call) (e : Env) (s : Storage) :
  exists appended,
    history (snd (transact c e s)) = history s ++ appended /\
    (List.length (history s)
       <= List.length (history (snd (transact c e s))))%nat /\
    firstn (List.length (history s)) (history (snd (transact c e s)))
      = history s.
Proof.
  assert (E : exists appended,
             history (snd (transact c e s)) = history s ++ appended).
  { unfold transact. destruct (call c e s) as [s' |] eqn:C; cbn.
    - apply call_effect in C as (_ & _ & ->).
      destruct c; cbn; eauto using app_nil_r.
    - exists []; now rewrite app_nil_r. }
  destruct E as [appended E]. exists appended.
  rewrite E. repeat split.
  - rewrite length_app; lia.
  - rewrite firstn_app, firstn_all, Nat.sub_diag; cbn.
    now rewrite app_nil_r.
Qed.

(** C10. Once [revoke] has gone through, a second [revoke] by any caller
    that passes the farmer-or-auditor guard goes through as well and
    leaves the whole storage (state, meta, history, location history) as
    the first call left it. *)
Theorem revoke_idempotent (e1 e2 : Env) (s s1 : Storage) :
  call Revoke e1 s = Some s1 ->
  Table.role_check Revoke e2 s1 = true ->
  transact Revoke e2 s1 = (true, s1) /\ state s1 = Revoked.
Proof.
  intros C1 R2.
  apply call_effect in C1 as (_ & _ & ->).
  destruct (call_completes Revoke e2 _ R2 eq_refl) as [s2 C2].
  rewrite (transact_completed _ _ _ _ C2).
  apply call_effect in C2 as (_ & _ & ->); cbn. auto.
Qed.

Lemma revoke_idempotent_witness :
  transact Revoke (Sample.by_ 2 2001)
    (snd (transact Revoke (Sample.by_ 1 2000) Sample.fresh))
  = (true, snd (transact Revoke (Sample.by_ 1 2000) Sample.fresh)) /\
  state (snd (transact Revoke (Sample.by_ 1 2000) Sample.fresh)) = Revoked.
Proof.
  apply (revoke_idempotent (Sample.by_ 1 2000) (Sample.by_ 2 2001)
           Sample.fresh); reflexivity.
Defined.

(** What a run of completed calls leaves behind: one history entry for
    each recording call, in call order, and the state the table gives. *)
Lemma run_effect cs : forall s s',
  run cs s = Some s' ->
  history s' = history s ++ Table.entries cs /\
  state s' = fold_left (fun st ce => Table.successor (fst ce) st) cs (state s).
Proof.
  induction cs as [| [c e] cs IH]; cbn; intros s s' H.
  - injection H as <-. now rewrite app_nil_r.
  - destruct (call c e s) as [s1 |] eqn:C; [| discriminate].
    apply IH in H as [Hh Hs]. rewrite Hh, Hs.
    apply call_effect in C as (_ & _ & ->).
    destruct c; cbn; rewrite <- ?app_assoc; auto.
Qed.

(** What no call writes: the product, the amount and the sub-state. *)
Lemma run_keeps cs : forall s s',
  run cs s = Some s' ->
  product (meta s') = product (meta s) /\
  amount (meta s') = amount (meta s) /\
  subState s' = subState s.
Proof.
  induction cs as [| [c e] cs IH]; cbn; intros s s' H.
  - injection H as <-. auto.
  - destruct (call c e s) as [s1 |] eqn:C; [| discriminate].
    apply IH in H as (Hp & Ha & Hs). rewrite Hp, Ha, Hs.
    apply call_effect in C as (_ & _ & ->).
    destruct c; cbn; auto.
Qed.

End LedgerProperties.

(* ================================================================== *)
(** * Properties of promises *)
(* ================================================================== *)

Section PromiseProperties.

Import Promise.

Context {A : Type}.

Lemma first_rejection_none (ps : list (Promise.t A)) :
  Forall (fun p => is_rejected p = false) ps -> first_rejection ps = None.
Proof.
  induction 1 as [| p ps Hp _ IH]; cbn; [reflexivity |].
  rewrite IH. destruct p; cbn in Hp; congruence.
Qed.

Lemma first_rejection_some (ps : list (Promise.t A)) p :
  In p ps -> is_rejected p = true -> first_rejection ps <> None.
Proof.
  induction ps as [| q ps IH]; [intros [] |].
  intros [-> | Hin] Hr; cbn [first_rejection].
  - destruct p as [| i v | i r]; cbn in Hr; try discriminate.
    destruct (first_rejection ps) as [[j r'] |];
      [destruct (j <? i)%nat |]; discriminate.
  - specialize (IH Hin Hr).
    destruct (first_rejection ps) as [[j r'] |]; [| congruence].
    destruct q as [| i v | i r];
      [| | destruct (j <? i)%nat]; discriminate.
Qed.

Lemma values_some (ps : list (Promise.t A)) : forall i vs,
  values ps = Some (i, vs) -> Forall2 settled_with ps vs.
Proof.
  induction ps as [| p ps IH]; cbn; intros i vs H.
  - injection H as _ <-. constructor.
  - destruct p as [| j v | j r]; try discriminate.
    destruct (values ps) as [[k ws] |] eqn:V; [| discriminate].
    injection H as _ <-. constructor; [now exists j | eauto].
Qed.

Lemma values_of_settled (ps : list (Promise.t A)) vs :
  Forall2 settled_with ps vs -> exists i, values ps = Some (i, vs).
Proof.
  induction 1 as [| p v ps vs [j ->] _ [i IH]]; cbn; [eauto |].
  rewrite IH; eauto.
Qed.

Lemma settled_not_rejected (ps : list (Promise.t A)) vs :
  Forall2 settled_with ps vs -> Forall (fun p => is_rejected p = false) ps.
Proof.
  induction 1 as [| p v ps vs [j ->] _ IH]; constructor; auto.
Qed.

(** [Promise.all] is fulfilled with the values in the order of the
    array, whatever the instants at which its members settle. *)
Lemma all_settled (ps : list (Promise.t A)) vs :
  Forall2 settled_with ps vs -> exists i, Promise.all ps = Fulfilled i vs.
Proof.
  intros H. unfold Promise.all.
  rewrite (first_rejection_none ps (settled_not_rejected ps vs H)).
  destruct (values_of_settled ps vs H) as [i ->]. eauto.
Qed.

Lemma all_fulfilled_inv (ps : list (Promise.t A)) i vs :
  Promise.all ps = Fulfilled i vs -> Forall2 settled_with ps vs.
Proof.
  unfold Promise.all.
  destruct (first_rejection ps) as [[j r] |]; [discriminate |].
  destruct (values ps) as [[k ws] |] eqn:V; [| discriminate].
  intros H; injection H as _ <-. eapply values_some; eauto.
Qed.

(** One rejected member rejects the whole, also while others are still
    pending. *)
Lemma all_rejected (ps : list (Promise.t A)) p :
  In p ps -> is_rejected p = true -> is_rejected (Promise.all ps) = true.
Proof.
  intros Hin Hr. unfold Promise.all.
  pose proof (first_rejection_some ps p Hin Hr) as N.
  destruct (first_rejection ps) as [[j r] |]; [reflexivity | congruence].
Qed.

Lemma then_fulfilled {B} (p : Promise.t A) (k : A -> Promise.t B) i v w :
  p = Fulfilled i v -> (exists j, k v = Fulfilled j w) ->
  exists j, then_ p k = Fulfilled j w.
Proof. intros -> [j K]; cbn; rewrite K; cbn; eauto. Qed.

Lemma then_fulfilled_inv {B} (p : Promise.t A) (k : A -> Promise.t B) i w :
  then_ p k = Fulfilled i w ->
  exists j v l, p = Fulfilled j v /\ k v = Fulfilled l w.
Proof.
  destruct p as [| j v | j r]; cbn; try discriminate.
  destruct (k v) as [| l w' | l r] eqn:K; cbn; try discriminate.
  intros H; injection H as _ <-. eauto.
Qed.

Lemma then_rejected {B} (p : Promise.t A) (k : A -> Promise.t B) :
  is_rejected p = true -> is_rejected (then_ p k) = true.
Proof. destruct p; cbn; congruence. Qed.

Lemma then_rejected_later {B} (p : Promise.t A) (k : A -> Promise.t B) i v :
  p = Fulfilled i v -> is_rejected (k v) = true ->
  is_rejected (then_ p k) = true.
Proof. intros ->; cbn. destruct (k v); cbn; congruence. Qed.

Lemma fulfilled_settled (p : Promise.t A) d :
  is_fulfilled p = true -> settled_with p (value_or d p).
Proof. destruct p; cbn; try discriminate. intros _; now eexists. Qed.

Lemma settled_fulfilled (p : Promise.t A) v :
  settled_with p v -> is_fulfilled p = true.
Proof. now intros [i ->]. Qed.

Lemma settled_unique (p : Promise.t A) v w :
  settled_with p v -> settled_with p w -> v = w.
Proof. intros [i ->] [j H]; congruence. Qed.

(** A page of promises made from the indices [l] settles with the page
    of their values. *)
Lemma map_settled {I} (f : I -> Promise.t A) (g : I -> A) (l : list I) :
  (forall i, In i l -> settled_with (f i) (g i)) ->
  Forall2 settled_with (map f l) (map g l).
Proof.
  induction l as [| i l IH]; cbn; intros H; constructor; auto.
Qed.

End PromiseProperties.

(* ================================================================== *)
(** * Properties of the gateway *)
(* ================================================================== *)

Section GatewayProperties.

Import Gateway.
Import Promise.

Variable OrderStatus : Z -> option string.

Lemma sequentialArray_length start size :
  List.length (sequentialArray start size) = Z.to_nat size.
Proof. unfold sequentialArray. now rewrite length_map, length_seq. Qed.

Lemma sequentialArray_nth start size k :
  (k < Z.to_nat size)%nat ->
  nth_error (sequentialArray start size) k = Some (start + Z.of_nat k).
Proof.
  intros H. unfold sequentialArray.
  rewrite nth_error_map, nth_error_seq.
  destruct (Nat.ltb_spec k (Z.to_nat size)); [reflexivity | lia].
Qed.

Lemma sequentialArray_In start size i :
  In i (sequentialArray start size) <-> start <= i < start + size.
Proof.
  unfold sequentialArray. rewrite in_map_iff. split.
  - intros (k & <- & Hk). apply in_seq in Hk. lia.
  - intros H. exists (Z.to_nat (i - start)). split; [lia |].
    apply in_seq. lia.
Qed.

Lemma sequentialArray_empty start size :
  size <= 0 -> sequentialArray start size = [].
Proof.
  intros H. unfold sequentialArray.
  replace (Z.to_nat size) with O by lia. reflexivity.
Qed.

Lemma sequentialArray_succ start n :
  sequentialArray start (Z.of_nat (S n))
  = sequentialArray start (Z.of_nat n) ++ [start + Z.of_nat n].
Proof.
  unfold sequentialArray. rewrite !Nat2Z.id, seq_S, map_app. reflexivity.
Qed.

(** Once its three loads are there, [buildOrder] hands out the model with
    all of them written into it, in whatever order they arrived. *)
Lemma buildOrder_settled c a h m p st :
  settled_with (getHistory (blank c a)) h ->
  settled_with (Contract.meta c) m ->
  toUtf8 (fst (fst m)) = Returns p ->
  settled_with (Contract.state c) st ->
  settled_with (buildOrder OrderStatus c a)
               (filled OrderStatus c a h p (snd (fst m)) st).
Proof.
  intros [ih H1] [im H2] D [ist H3].
  unfold buildOrder, callbackToResolve. fold (blank c a).
  rewrite H1, H2, H3. destruct m as [[hex am] rv].
  cbn [fst snd] in D |- *. cbn [then_]. rewrite D.
  cbn [then_ not_before resolve completed Promise.all first_rejection
       values ran flat_map app by_instant fold_right enqueue fst snd].
  repeat match goal with
         | |- context [(?x <=? ?y)%nat] =>
             destruct (x <=? y)%nat;
             cbn [enqueue fold_left fst snd then_ not_before resolve]
         end;
    eexists; reflexivity.
Qed.

Lemma buildOrder_inv c a i o :
  buildOrder OrderStatus c a = Fulfilled i o ->
  exists h m p st,
    settled_with (getHistory (blank c a)) h /\
    settled_with (Contract.meta c) m /\
    toUtf8 (fst (fst m)) = Returns p /\
    settled_with (Contract.state c) st /\
    o = filled OrderStatus c a h p (snd (fst m)) st.
Proof.
  intros H.
  assert (L : exists h m p st,
             settled_with (getHistory (blank c a)) h /\
             settled_with (Contract.meta c) m /\
             toUtf8 (fst (fst m)) = Returns p /\
             settled_with (Contract.state c) st).
  { unfold buildOrder, callbackToResolve in H. fold (blank c a) in H.
    apply then_fulfilled_inv in H as (j & vs & l & P & _).
    apply all_fulfilled_inv in P.
    inversion P as [| ? w1 ? ? [i1 L1] P1]; subst; clear P.
    inversion P1 as [| ? w2 ? ? [i2 L2] P2]; subst; clear P1.
    inversion P2 as [| ? w3 ? ? [i3 L3] _]; subst; clear P2.
    apply then_fulfilled_inv in L1 as (? & h & ? & L1 & _).
    apply then_fulfilled_inv in L2 as (? & m & ? & L2 & K).
    apply then_fulfilled_inv in L3 as (? & st & ? & L3 & _).
    destruct m as [[hex am] rv].
    destruct (toUtf8 hex) as [p | r] eqn:D; [| discriminate].
    exists h, (hex, am, rv), p, st.
    split; [eexists; eassumption |].
    split; [eexists; eassumption |].
    split; [exact D | eexists; eassumption]. }
  destruct L as (h & m & p & st & Lh & Lm & D & Ls).
  exists h, m, p, st. repeat split; auto.
  apply (settled_unique (buildOrder OrderStatus c a));
    [exists i; exact H | now apply buildOrder_settled].
Qed.

Lemma buildOrder_rejected c a :
  is_rejected (getHistory (blank c a)) = true
  \/ is_rejected (Contract.meta c) = true
  \/ is_rejected (Contract.state c) = true ->
  is_rejected (buildOrder OrderStatus c a) = true.
Proof.
  intros H. unfold buildOrder, callbackToResolve. fold (blank c a).
  apply then_rejected.
  destruct H as [H | [H | H]]; eapply all_rejected.
  - left; reflexivity.
  - apply then_rejected; exact H.
  - right; left; reflexivity.
  - apply then_rejected; exact H.
  - right; right; left; reflexivity.
  - apply then_rejected; exact H.
Qed.

(** A product that does not decode rejects the hydration, all reads
    answered or not. *)
Lemma buildOrder_undecodable_product c a i m :
  Contract.meta c = Fulfilled i m ->
  decodable (fst (fst m)) = false ->
  is_rejected (buildOrder OrderStatus c a) = true.
Proof.
  intros M D. unfold buildOrder, callbackToResolve. fold (blank c a).
  apply then_rejected. eapply all_rejected.
  - right; left; reflexivity.
  - rewrite M. destruct m as [[hex am] rv]. unfold decodable in D.
    cbn [fst snd] in D. cbn [then_].
    destruct (toUtf8 hex); [discriminate | reflexivity].
Qed.

Lemma getHistoryRecord_settled o i record row_ :
  settled_with (Contract.history (Order.contract o) i) record ->
  record_row record = Returns row_ ->
  settled_with (getHistoryRecord o i) row_.
Proof.
  intros [j H] R. unfold getHistoryRecord, callbackToResolve. rewrite H.
  destruct record as [[w act] t]. unfold record_row in R.
  cbn [fst snd] in R. cbn [then_].
  destruct (toUtf8 act); [| discriminate].
  injection R as <-. cbn. now eexists.
Qed.

Lemma getHistoryRecord_fulfilled_inv o i :
  is_fulfilled (getHistoryRecord o i) = true ->
  is_fulfilled (Contract.history (Order.contract o) i) = true.
Proof.
  unfold getHistoryRecord, callbackToResolve.
  destruct (Contract.history (Order.contract o) i); cbn; congruence.
Qed.

Lemma getHistoryRecord_fulfilled_decodes o i :
  is_fulfilled (getHistoryRecord o i) = true ->
  match Contract.history (Order.contract o) i with
  | Fulfilled _ record => decodable (snd (fst record))
  | _ => true
  end = true.
Proof.
  unfold getHistoryRecord, callbackToResolve, decodable.
  destruct (Contract.history (Order.contract o) i) as [| j [[w act] t] |];
    cbn [then_ fst snd]; try reflexivity.
  destruct (toUtf8 act); [reflexivity | discriminate].
Qed.

Lemma getHistoryRecord_rejected o i :
  is_rejected (Contract.history (Order.contract o) i) = true ->
  is_rejected (getHistoryRecord o i) = true.
Proof. apply then_rejected. Qed.

Lemma getHistoryRecord_undecodable o i j record :
  Contract.history (Order.contract o) i = Fulfilled j record ->
  decodable (snd (fst record)) = false ->
  is_rejected (getHistoryRecord o i) = true.
Proof.
  intros H D. unfold getHistoryRecord, callbackToResolve. rewrite H.
  destruct record as [[w act] t]. unfold decodable in D.
  cbn [fst snd] in D. cbn [then_].
  destruct (toUtf8 act); [discriminate | reflexivity].
Qed.

(** The history load: the length first, then one read for each index
    below it, the rows coming out in the order of the indices. *)
Lemma getHistory_settled o n (row_ : Z -> OrderHistory) :
  settled_with (Contract.getHistoryLength (Order.contract o)) n ->
  (forall i, 0 <= i < n -> settled_with (getHistoryRecord o i) (row_ i)) ->
  settled_with (getHistory o) (map row_ (sequentialArray 0 n)).
Proof.
  intros [j L] R. unfold getHistory, getHistoryLength, callbackToResolve.
  rewrite L. cbn [then_].
  destruct (Z.gtb_spec n 0) as [P | NP].
  - destruct (all_settled
                (map (getHistoryRecord o) (sequentialArray 0 n))
                (map row_ (sequentialArray 0 n)))
      as [k K].
    + apply map_settled. intros i Hi. apply sequentialArray_In in Hi.
      apply R. lia.
    + rewrite K. cbn. now eexists.
  - rewrite sequentialArray_empty by lia. cbn. now eexists.
Qed.

Lemma Forall2_settled_fulfilled {A} (ps : list (Promise.t A)) vs p :
  Forall2 settled_with ps vs -> In p ps -> is_fulfilled p = true.
Proof.
  induction 1 as [| q v qs ws Hq _ IH]; cbn; [tauto |].
  intros [<- | Hin]; [eapply settled_fulfilled; eauto | auto].
Qed.

Lemma getHistory_fulfilled_inv o i h :
  getHistory o = Fulfilled i h ->
  exists j n,
    Contract.getHistoryLength (Order.contract o) = Fulfilled j n /\
    forallb (fun i => is_fulfilled (Contract.history (Order.contract o) i))
            (sequentialArray 0 n) = true /\
    forallb (fun i =>
               match Contract.history (Order.contract o) i with
               | Fulfilled _ record => decodable (snd (fst record))
               | _ => true
               end)
            (sequentialArray 0 n) = true.
Proof.
  unfold getHistory, getHistoryLength, callbackToResolve. intros H.
  apply then_fulfilled_inv in H as (j & n & l & L & K).
  exists j, n. split; [exact L |].
  destruct (Z.gtb_spec n 0) as [P | NP].
  - apply all_fulfilled_inv in K.
    assert (F : forall x, In x (sequentialArray 0 n) ->
                          is_fulfilled (getHistoryRecord o x) = true).
    { intros x Hx. eapply Forall2_settled_fulfilled; [exact K |].
      now apply in_map. }
    split; apply forallb_forall; intros x Hx.
    + now apply getHistoryRecord_fulfilled_inv, F.
    + now apply getHistoryRecord_fulfilled_decodes, F.
  - rewrite sequentialArray_empty by lia. split; reflexivity.
Qed.

Lemma getHistory_rejected o :
  match Contract.getHistoryLength (Order.contract o) with
  | Fulfilled _ n =>
      existsb (fun i => is_rejected (Contract.history (Order.contract o) i))
              (sequentialArray 0 n)
  | Rejected _ _ => true
  | Pending => false
  end = true ->
  is_rejected (getHistory o) = true.
Proof.
  unfold getHistory, getHistoryLength, callbackToResolve.
  destruct (Contract.getHistoryLength (Order.contract o)) as [| j n | j r];
    [discriminate | | reflexivity].
  intros H. apply existsb_exists in H as (x & Hx & Rx).
  apply then_rejected_later with (i := j) (v := n); [reflexivity |].
  pose proof Hx as Hx'. apply sequentialArray_In in Hx'.
  destruct (Z.gtb_spec n 0) as [P | NP]; [| lia].
  apply all_rejected with (p := getHistoryRecord o x).
  - now apply in_map.
  - now apply getHistoryRecord_rejected.
Qed.

(** An action that does not decode rejects the history load. *)
Lemma getHistory_undecodable o j n x k record :
  Contract.getHistoryLength (Order.contract o) = Fulfilled j n ->
  0 <= x < n ->
  Contract.history (Order.contract o) x = Fulfilled k record ->
  decodable (snd (fst record)) = false ->
  is_rejected (getHistory o) = true.
Proof.
  intros L Hx H D. unfold getHistory, getHistoryLength, callbackToResolve.
  apply then_rejected_later with (i := j) (v := n); [exact L |].
  destruct (Z.gtb_spec n 0) as [P | NP]; [| lia].
  apply all_rejected with (p := getHistoryRecord o x).
  - apply in_map, sequentialArray_In. lia.
  - eapply getHistoryRecord_undecodable; eauto.
Qed.

Lemma forallb_false {A} (f : A -> bool) (l : list A) :
  forallb f l = false -> exists x, In x l /\ f x = false.
Proof.
  induction l as [| y l IH]; cbn; [discriminate |].
  intros H. apply andb_false_iff in H as [H | H].
  - exists y. auto.
  - destruct (IH H) as (x & Hx & Fx). exists x. auto.
Qed.

Lemma row_at_settled c a i :
  is_fulfilled (Contract.history c i) = true ->
  match Contract.history c i with
  | Fulfilled _ record => decodable (snd (fst record))
  | _ => true
  end = true ->
  settled_with (getHistoryRecord (blank c a) i) (row_at c i).
Proof.
  intros F D. unfold row_at.
  destruct (Contract.history c i) as [| j record |] eqn:H;
    try discriminate.
  apply getHistoryRecord_settled with (record := record).
  - cbn [Order.contract blank]. rewrite H. now eexists.
  - unfold record_row, decodable in *.
    destruct (toUtf8 (snd (fst record))); [reflexivity | discriminate].
Qed.

(** C8. A hydration reads the meta data, the status and the history (the
    length, then each entry).  It hands out an order only when every one
    of these reads has come back with a value, and the order then has all
    its fields; when a single read comes back with an error, the
    hydration as a whole comes back with an error, and no order, half
    filled or not, is handed out.  (When every read has come back with a
    value, the order is handed out if the texts among them decode, and
    the hydration comes back with an error if one does not.) *)
Theorem hydration_all_or_nothing (c : Contract.t) (a : address) :
  (a_read_fails c = true ->
     is_rejected (buildOrder OrderStatus c a) = true) /\
  (reads_succeed c = true -> texts_decode c = true ->
     exists i o, buildOrder OrderStatus c a = Fulfilled i o /\
                 Order.populated o = true) /\
  (forall i o, buildOrder OrderStatus c a = Fulfilled i o ->
     reads_succeed c = true /\ Order.populated o = true) /\
  (reads_succeed c = true -> texts_decode c = false ->
     is_rejected (buildOrder OrderStatus c a) = true).
Proof.
  split; [| split; [| split]].
  - unfold a_read_fails. intros H.
    apply buildOrder_rejected.
    apply orb_true_iff in H as [H | H];
      [apply orb_true_iff in H as [H | H] |]; auto.
    left. now apply getHistory_rejected.
  - unfold reads_succeed, texts_decode. intros H T.
    apply andb_true_iff in H as [H Hh].
    apply andb_true_iff in H as [Hm Hs].
    apply andb_true_iff in T as [Tm Th].
    destruct (Contract.getHistoryLength c) as [| j n | j r] eqn:L;
      try discriminate.
    destruct (Contract.meta c) as [| im m |] eqn:M; try discriminate.
    destruct (Contract.state c) as [| ist st |] eqn:S; try discriminate.
    unfold decodable in Tm.
    destruct (toUtf8 (fst (fst m))) as [p |] eqn:D; [| discriminate].
    destruct (buildOrder_settled c a (map (row_at c) (sequentialArray 0 n))
                m p st) as [i B].
    + apply getHistory_settled; cbn [Order.contract blank].
      * rewrite L. now eexists.
      * intros i Hi.
        rewrite forallb_forall in Hh. rewrite forallb_forall in Th.
        apply row_at_settled; [apply Hh | apply Th];
          apply sequentialArray_In; lia.
    + rewrite M. now eexists.
    + exact D.
    + rewrite S. now eexists.
    + eauto.
  - intros i o H.
    apply buildOrder_inv in H as (h & m & p & st & Hh & Hm & _ & Hs & ->).
    split; [| reflexivity].
    unfold reads_succeed.
    rewrite (settled_fulfilled _ _ Hm), (settled_fulfilled _ _ Hs).
    destruct Hh as [k Hh].
    apply getHistory_fulfilled_inv in Hh as (j & n & L & F & _).
    cbn [Order.contract blank] in L, F. now rewrite L.
  - unfold reads_succeed, texts_decode. intros H T.
    apply andb_true_iff in H as [H Hh].
    apply andb_true_iff in H as [Hm Hs].
    destruct (Contract.getHistoryLength c) as [| j n | j r] eqn:L;
      try discriminate.
    destruct (Contract.meta c) as [| im m |] eqn:M; try discriminate.
    apply andb_false_iff in T as [T | T].
    + eapply buildOrder_undecodable_product; eauto.
    + apply buildOrder_rejected. left.
      apply forallb_false in T as (x & Hx & Dx).
      rewrite forallb_forall in Hh. specialize (Hh x Hx).
      apply sequentialArray_In in Hx.
      destruct (Contract.history c x) as [| k record |] eqn:R;
        try discriminate.
      apply getHistory_undecodable
        with (j := j) (n := n) (x := x) (k := k) (record := record);
        cbn [Order.contract blank]; auto; lia.
Qed.

(** The labels of the table are read back as written. *)
Lemma record_row_entry t e :
  record_row (OrderV1.who (Table.entry t e), OrderV1.action (Table.entry t e),
              OrderV1.when (Table.entry t e))
  = Returns (row (OrderV1.msg_sender e, Table.label t)).
Proof. destruct t; reflexivity. Qed.

Lemma rows_of_entries cs :
  Forall2 (fun r row_ =>
             record_row (OrderV1.who r, OrderV1.action r, OrderV1.when r)
             = Returns row_)
          (Table.entries cs) (map row (Table.recorded cs)).
Proof.
  induction cs as [| [c e] cs IH]; [constructor |].
  change (Table.entries ((c, e) :: cs))
    with (match c with
          | OrderV1.Do t => [Table.entry t e]
          | _ => []
          end ++ Table.entries cs).
  change (Table.recorded ((c, e) :: cs))
    with (match c with
          | OrderV1.Do t => [(OrderV1.msg_sender e, Table.label t)]
          | _ => []
          end ++ Table.recorded cs).
  rewrite map_app. apply Forall2_app; [| exact IH].
  destruct c as [t | | |]; cbn [map]; constructor; [| constructor].
  apply record_row_entry.
Qed.


(** Reading a list index by index, from 0 up to its length, gives the
    list back. *)
Lemma read_by_index {B C} (g : B -> C) (d : C) (hs : list B) : forall tl,
  map (fun i => match nth_error (hs ++ tl) (Z.to_nat i) with
                | Some r => g r
                | None => d
                end)
      (sequentialArray 0 (Z.of_nat (List.length hs)))
  = map g hs.
Proof.
  induction hs as [| r hs IH] using rev_ind; intros tl; [reflexivity |].
  rewrite length_app, Nat.add_1_r, sequentialArray_succ, !map_app.
  rewrite <- app_assoc. rewrite IH. cbn [map]. f_equal.
  rewrite Z.add_0_l, Nat2Z.id.
  rewrite nth_error_app2 by lia. rewrite Nat.sub_diag. reflexivity.
Qed.

Lemma read_whole_by_index {B C} (g : B -> C) (d : C) (hs : list B) :
  map (fun i => match nth_error hs (Z.to_nat i) with
                | Some r => g r
                | None => d
                end)
      (sequentialArray 0 (Z.of_nat (List.length hs)))
  = map g hs.
Proof.
  pose proof (read_by_index g d hs []) as H.
  now rewrite app_nil_r in H.
Qed.

Lemma deployed_history_settled l s so me i :
  0 <= i < OrderV1.getHistoryLength s ->
  settled_with (Contract.history (deployed l s so me) i)
    (match nth_error (OrderV1.history s) (Z.to_nat i) with
     | Some r => (OrderV1.who r, OrderV1.action r, OrderV1.when r)
     | None => (0, EmptyString, 0)
     end).
Proof.
  unfold OrderV1.getHistoryLength. intros H.
  cbn [Contract.history deployed]. unfold history_getter.
  destruct (Z.leb_spec 0 i); [| lia].
  destruct (nth_error (OrderV1.history s) (Z.to_nat i)) as [r |] eqn:N.
  - now eexists.
  - apply nth_error_None in N. lia.
Qed.

Lemma Forall2_nth_error {B C} (P : B -> C -> Prop) l1 l2 :
  Forall2 P l1 l2 ->
  forall k x, nth_error l1 k = Some x ->
  exists y, nth_error l2 k = Some y /\ P x y.
Proof.
  induction 1 as [| x0 y0 l1 l2 H0 _ IH]; intros k x Hk.
  - destruct k; discriminate.
  - destruct k as [| k]; cbn in *.
    + injection Hk as <-. eauto.
    + eauto.
Qed.

Lemma state_number_is_a_Number st :
  parseInt (OrderV1.State_code st) = OrderV1.State_code st.
Proof. destruct st; vm_compute; reflexivity. Qed.

(** Hydrating a deployed order whose texts decode gives back its history,
    row by row, its product and amount, and the number of its state. *)
Lemma deployed_hydrates l s so me a rows p :
  Forall2 (fun r row_ =>
             record_row (OrderV1.who r, OrderV1.action r, OrderV1.when r)
             = Returns row_)
          (OrderV1.history s) rows ->
  toUtf8 (OrderV1.product (OrderV1.meta s)) = Returns p ->
  settled_with (buildOrder OrderStatus (deployed l s so me) a)
    (Order.mk a (deployed l s so me) (Some rows)
       (Some (OrderV1.amount (OrderV1.meta s))) (Some p)
       (Some (OrderV1.State_code (OrderV1.state s)))
       (OrderStatus (OrderV1.State_code (OrderV1.state s)))).
Proof.
  intros R D.
  pose (d := mkOrderHistory EmptyString 0 EmptyString).
  assert (E : map (fun i => match nth_error rows (Z.to_nat i) with
                            | Some row_ => row_
                            | None => d
                            end)
                  (sequentialArray 0 (OrderV1.getHistoryLength s))
              = rows).
  { unfold OrderV1.getHistoryLength.
    rewrite (Forall2_length R).
    rewrite (read_whole_by_index (fun row_ => row_) d rows).
    apply map_id. }
  rewrite <- (state_number_is_a_Number (OrderV1.state s)) at 1.
  rewrite <- E at 1.
  apply (buildOrder_settled (deployed l s so me) a _
           (OrderV1.product (OrderV1.meta s), OrderV1.amount (OrderV1.meta s),
            OrderV1.revoked (OrderV1.meta s)) p
           (OrderV1.State_code (OrderV1.state s))).
  - apply getHistory_settled with (n := OrderV1.getHistoryLength s).
    + cbn. now eexists.
    + intros i Hi.
      pose proof (deployed_history_settled l s so me i Hi) as H.
      destruct (nth_error (OrderV1.history s) (Z.to_nat i)) as [r |] eqn:N.
      * destruct (Forall2_nth_error _ _ _ R _ _ N) as (row_ & Nr & Rr).
        rewrite Nr.
        eapply getHistoryRecord_settled; [exact H | exact Rr].
      * apply nth_error_None in N.
        unfold OrderV1.getHistoryLength in Hi. lia.
  - cbn. now eexists.
  - exact D.
  - cbn. now eexists.
Qed.


Lemma servicePromise_settled this accs :
  settled_with (eth_getAccounts (web3 this)) accs ->
  settled_with (servicePromise this) tt.
Proof.
  intros [i H]. unfold servicePromise, getAccounts, callbackToResolve.
  rewrite H. cbn. now eexists.
Qed.

Lemma callWithPromise_settled {A} this accs (answer : Web3 -> Promise.t A) v :
  settled_with (eth_getAccounts (web3 this)) accs ->
  settled_with (answer (web3 this)) v ->
  settled_with (callWithPromise this answer) v.
Proof.
  intros Ha [j H]. destruct (servicePromise_settled this accs Ha) as [i S].
  unfold callWithPromise, callbackToResolve. rewrite S, H. cbn.
  now eexists.
Qed.

(** C6. The page listing first reads the count of the registry.  With a
    count of 0 it answers the empty page and the total 0.  Otherwise it
    answers, with the count as total, the hydrated orders of the indices
    [startIndex .. min(total, startIndex + pageSize) - 1]: the entry at
    position [k] of the page is the hydrated order of index
    [startIndex + k], at whatever instants the single hydrations have
    come in. *)
Theorem orders_page (this : BlockchainService) (startIndex pageSize : Z)
  (accs : list address) (count : Z) (hydrated : Z -> Order.t) :
  settled_with (eth_getAccounts (web3 this)) accs ->
  settled_with (ordersContract_getAmount (web3 this)) count ->
  0 <= count ->
  (forall i, 0 < count ->
     startIndex <= i < Z.min count (startIndex + pageSize) ->
     settled_with (getOrder OrderStatus this i) (hydrated i)) ->
  exists page,
    settled_with (orders OrderStatus this startIndex pageSize)
                 (mkOrdersResponse page count) /\
    (count = 0 -> page = []) /\
    (0 < count ->
       List.length page
         = Z.to_nat (Z.min count (startIndex + pageSize) - startIndex) /\
       forall k, (k < List.length page)%nat ->
         nth_error page k = Some (hydrated (startIndex + Z.of_nat k))).
Proof.
  intros Ha Hc Hpos Hy.
  destruct (callWithPromise_settled this accs ordersContract_getAmount
              count Ha Hc) as [i C].
  unfold orders, orderCount. rewrite C. cbn [then_].
  set (maxIndex := Z.min count (startIndex + pageSize)).
  set (indices := sequentialArray startIndex (maxIndex - startIndex)).
  destruct (Z.gtb_spec count 0) as [P | NP].
  - exists (map hydrated indices).
    destruct (all_settled (map (getOrder OrderStatus this) indices)
                (map hydrated indices)) as [j K].
    { apply map_settled. intros x Hx. apply sequentialArray_In in Hx.
      apply Hy; [lia |]. fold maxIndex. lia. }
    rewrite K. split; [cbn; now eexists |].
    split; [lia |]. intros _.
    assert (L : List.length indices = Z.to_nat (maxIndex - startIndex))
      by apply sequentialArray_length.
    rewrite length_map, L. split; [reflexivity |].
    intros k Hk. rewrite nth_error_map. unfold indices.
    rewrite sequentialArray_nth by exact Hk. reflexivity.
  - exists []. split; [cbn; now eexists |].
    split; [reflexivity | lia].
Qed.

(** The action path, case by case.  When [setOwners] is answered with an
    error, nothing settles the promise [sendOrder] returns, the handler
    of its [catch] never runs, and the error stays with the dropped
    chain. *)
Lemma sendOrder_setOwners_rejected this order methodName args i err :
  Contract.setOwners (Order.contract order) (repeat (from this) 5)
                     (sendDefaults this) = Rejected i err ->
  sendOrder OrderStatus this order methodName args
  = (Pending, mkEffects [] [] [err]).
Proof.
  intros H. unfold sendOrder, setOwners, callbackToResolve.
  rewrite H. reflexivity.
Qed.

(** The same when the contract instance has no member of that name. *)
Lemma sendOrder_no_such_method this order methodName args i h :
  Contract.setOwners (Order.contract order) (repeat (from this) 5)
                     (sendDefaults this) = Fulfilled i h ->
  Contract.method (Order.contract order) methodName = None ->
  sendOrder OrderStatus this order methodName args
  = (Pending,
     mkEffects [] []
       ["TypeError: order.contract[methodName] is not a function"]).
Proof.
  intros H M. unfold sendOrder, setOwners, callbackToResolve.
  rewrite H, M. reflexivity.
Qed.

(** An error of the named call is caught and logged; nothing is
    published. *)
Lemma sendOrder_call_rejected this order methodName args i h f j err :
  Contract.setOwners (Order.contract order) (repeat (from this) 5)
                     (sendDefaults this) = Fulfilled i h ->
  Contract.method (Order.contract order) methodName = Some f ->
  f args (sendDefaults this) = Rejected j err ->
  exists k,
    sendOrder OrderStatus this order methodName args
    = (Fulfilled k None, mkEffects [err] [] []).
Proof.
  intros H M F. unfold sendOrder, setOwners, callbackToResolve.
  rewrite H, M. cbn. rewrite F. cbn. now eexists.
Qed.

(** An error of the hydration that follows is caught and logged; nothing
    is published. *)
Lemma sendOrder_hydration_rejected this order methodName args i h f j tx :
  Contract.setOwners (Order.contract order) (repeat (from this) 5)
                     (sendDefaults this) = Fulfilled i h ->
  Contract.method (Order.contract order) methodName = Some f ->
  f args (sendDefaults this) = Fulfilled j tx ->
  is_rejected (getOrderByAddress OrderStatus this (Order.id order)) = true ->
  exists k err,
    sendOrder OrderStatus this order methodName args
    = (Fulfilled k None, mkEffects [err] [] []).
Proof.
  intros H M F G. unfold sendOrder, setOwners, callbackToResolve.
  rewrite H, M. cbn. rewrite F. cbn.
  destruct (getOrderByAddress OrderStatus this (Order.id order));
    try discriminate.
  cbn. now do 2 eexists.
Qed.

(** When all three steps go through, the hydrated order is published,
    once, and is what the promise is fulfilled with. *)
Lemma sendOrder_published this order methodName args i h f j tx o :
  Contract.setOwners (Order.contract order) (repeat (from this) 5)
                     (sendDefaults this) = Fulfilled i h ->
  Contract.method (Order.contract order) methodName = Some f ->
  f args (sendDefaults this) = Fulfilled j tx ->
  settled_with (getOrderByAddress OrderStatus this (Order.id order)) o ->
  exists k,
    sendOrder OrderStatus this order methodName args
    = (Fulfilled k (Some o), mkEffects [] [o] []).
Proof.
  intros H M F [l G]. unfold sendOrder, setOwners, callbackToResolve.
  rewrite H, M. cbn. rewrite F. cbn. rewrite G. cbn. now eexists.
Qed.

End GatewayProperties.

(* ================================================================== *)
(** * The properties on the sample registry *)
(* ================================================================== *)

Lemma orders_page_witness :
  exists page,
    Promise.settled_with
      (Gateway.orders Sample.OrderStatus Sample.service 3 20)
      (Gateway.mkOrdersResponse page 5) /\
    (5 = 0 -> page = []) /\
    (0 < 5 ->
       List.length page = Z.to_nat (Z.min 5 (3 + 20) - 3) /\
       forall k, (k < List.length page)%nat ->
         nth_error page k = Some (Sample.hydrated (3 + Z.of_nat k))).
Proof.
  apply (orders_page Sample.OrderStatus Sample.service 3 20 [7; 8] 5
           Sample.hydrated).
  - exists 1%nat. reflexivity.
  - exists 2%nat. reflexivity.
  - lia.
  - intros i _ Hi.
    assert (E : i = 3 \/ i = 4) by lia.
    destruct E as [-> | ->]; apply fulfilled_settled;
      vm_compute; reflexivity.
Defined.


(** The claim C9 on an order whose [setOwners] call is answered with an
    error: the promise of the action stays pending, nothing is logged by
    the handler, nothing is published, and the error is an unhandled
    rejection of the dropped chain. *)
Lemma sendOrder_setOwners_failure_not_caught :
  Gateway.approveOrder Sample.OrderStatus Sample.service Sample.cut_off
  = (Promise.Pending,
     Gateway.mkEffects [] [] ["Error: Invalid JSON RPC response"]).
Proof.
  unfold Gateway.approveOrder.
  apply sendOrder_setOwners_rejected with (i := 40%nat).
  reflexivity.
Qed.

(** The same on [deliveredOrder], which names a function the contract
    does not have. *)
Lemma deliveredOrder_not_caught :
  Gateway.deliveredOrder Sample.OrderStatus Sample.service Sample.listed
  = (Promise.Pending,
     Gateway.mkEffects [] []
       ["TypeError: order.contract[methodName] is not a function"]).
Proof.
  unfold Gateway.deliveredOrder.
  apply sendOrder_no_such_method with (i := 40%nat) (h := "0xa1");
    reflexivity.
Qed.

(** The listings of the design document, on the sample registry of five
    orders and on an empty one. *)
Example list_0_20 :
  Sample.listing (Gateway.orders Sample.OrderStatus Sample.service 0 20)
  = Some ([100; 101; 102; 103; 104], 5).
Proof. vm_compute; reflexivity. Qed.

Example list_3_20 :
  Sample.listing (Gateway.orders Sample.OrderStatus Sample.service 3 20)
  = Some ([103; 104], 5).
Proof. vm_compute; reflexivity. Qed.

Example list_0_20_empty :
  Sample.listing (Gateway.orders Sample.OrderStatus
             (Gateway.new_BlockchainService Sample.empty_node) 0 20)
  = Some ([], 0).
Proof. vm_compute; reflexivity. Qed.

(** A read that fails in the middle of a history fails the hydration. *)
Example hydration_fails_on_one_read :
  Promise.is_rejected
    (Gateway.buildOrder Sample.OrderStatus
       (Gateway.Contract.mk
          (Promise.Fulfilled 1 (to_bytes32 "Apples", 10, false))
          (Promise.Fulfilled 2 3)
          (Promise.Fulfilled 3 4)
          (fun i => if i =? 2 then Promise.Rejected 4 "timeout"
                    else Promise.Fulfilled 5 (1, to_bytes32 "Approved", 0))
          Sample.accepted Sample.members) 100)
  = true.
Proof. vm_compute; reflexivity. Qed.

(* ================================================================== *)
(** * More on the ledger: the lifecycle *)
(* ================================================================== *)

Section LifecycleProperties.

Import OrderV1.

Lemma call_state_forward c e s s' :
  call c e s = Some s' -> State_code (state s) <= State_code (state s').
Proof.
  intros C. apply call_effect in C as (_ & S & ->).
  destruct c as [t | | |]; cbn in *; try lia.
  - apply State_eqb_eq in S. rewrite S. destruct t; cbn; lia.
  - destruct (state s); cbn; lia.
Qed.

(** X1. The number of the state never goes down: whatever calls go
    through, in whatever order, the order is afterwards in the state it
    was in or in a later one of the enumeration ([Revoked] being the
    last). *)
Theorem state_never_goes_back (cs : list (Call * Env)) (s s' : Storage) :
  run cs s = Some s' -> State_code (state s) <= State_code (state s').
Proof.
  revert s. induction cs as [| [c e] cs IH]; cbn; intros s H.
  - injection H as <-. lia.
  - destruct (call c e s) as [s1 |] eqn:C; [| discriminate].
    apply call_state_forward in C. apply IH in H. lia.
Qed.

Lemma state_never_goes_back_witness :
  State_code (state Sample.fresh) <= State_code (state Sample.delivered).
Proof.
  apply (state_never_goes_back Sample.delivery Sample.fresh Sample.delivered).
  vm_compute; reflexivity.
Defined.

(** X2. An order that is [Delivered] or [Revoked] takes no further
    history: each of the seven recording transitions is rejected there,
    whoever calls it, and the storage stays as it is. *)
Theorem closed_order_rejects_transitions (t : Transition) (e : Env)
  (s : Storage) :
  state s = Delivered \/ state s = Revoked ->
  transact (Do t) e s = (false, s).
Proof.
  intros H. apply transact_reverted, call_reverts. right. cbn.
  apply State_eqb_neq. destruct H as [-> | ->]; destruct t; discriminate.
Qed.

Lemma closed_order_rejects_transitions_witness :
  transact (Do ConfirmDelivery) (Sample.by_ 5 3000) Sample.delivered
  = (false, Sample.delivered).
Proof.
  apply (closed_order_rejects_transitions ConfirmDelivery
           (Sample.by_ 5 3000) Sample.delivered).
  left. vm_compute; reflexivity.
Defined.

(** X3. [Revoked] is final: after any further calls that go through, the
    order is still [Revoked] and its history is what it was. *)
Theorem Revoked_is_final (cs : list (Call * Env)) (s s' : Storage) :
  state s = Revoked ->
  run cs s = Some s' ->
  state s' = Revoked /\ history s' = history s.
Proof.
  revert s. induction cs as [| [c e] cs IH]; cbn; intros s R H.
  - injection H as <-. auto.
  - destruct (call c e s) as [s1 |] eqn:C; [| discriminate].
    apply call_effect in C as (_ & S & ->).
    destruct c as [t | | |]; cbn in S.
    + apply State_eqb_eq in S. rewrite R in S.
      destruct t; discriminate.
    + apply IH in H; [exact H | reflexivity].
    + apply IH in H; [exact H | exact R].
    + apply IH in H; [exact H | exact R].
Qed.

Lemma Revoked_is_final_witness :
  state (snd (transact (UpdateLocation (to_bytes32 "52.5") (to_bytes32 "13.4"))
                (Sample.by_ 8 2002)
                (snd (transact (SetOwners 8 8 8 8 8) (Sample.by_ 8 2001)
                        (snd (transact Revoke (Sample.by_ 1 2000)
                                Sample.fresh))))))
    = Revoked /\
  history (snd (transact (UpdateLocation (to_bytes32 "52.5") (to_bytes32 "13.4"))
                  (Sample.by_ 8 2002)
                  (snd (transact (SetOwners 8 8 8 8 8) (Sample.by_ 8 2001)
                          (snd (transact Revoke (Sample.by_ 1 2000)
                                  Sample.fresh))))))
    = history (snd (transact Revoke (Sample.by_ 1 2000) Sample.fresh)).
Proof.
  apply (Revoked_is_final
           [(SetOwners 8 8 8 8 8, Sample.by_ 8 2001);
            (UpdateLocation (to_bytes32 "52.5") (to_bytes32 "13.4"),
             Sample.by_ 8 2002)]
           (snd (transact Revoke (Sample.by_ 1 2000) Sample.fresh))).
  - vm_compute; reflexivity.
  - vm_compute; reflexivity.
Defined.

(** X4. The product and the amount of an order are fixed at its
    construction: after any calls that go through they are what the
    constructor was given. *)
Theorem product_and_amount_fixed (base : AC.t) (p : bytes32) (a : uint)
  (creator : address) (cs : list (Call * Env)) (s : Storage) :
  run cs (constructor base p a creator) = Some s ->
  product (meta s) = p /\ amount (meta s) = a.
Proof.
  intros H. apply run_keeps in H as (Hp & Ha & _). cbn in Hp, Ha. auto.
Qed.

Lemma product_and_amount_fixed_witness :
  product (meta Sample.delivered) = to_bytes32 "Apples" /\
  amount (meta Sample.delivered) = 10.
Proof.
  apply (product_and_amount_fixed Sample.base (to_bytes32 "Apples") 10 9
           Sample.delivery Sample.delivered).
  vm_compute; reflexivity.
Defined.

(** X5. The sub-state is never written: whatever calls go through, it is
    [None] as the constructor set it. *)
Theorem subState_stays_None (base : AC.t) (p : bytes32) (a : uint)
  (creator : address) (cs : list (Call * Env)) (s : Storage) :
  run cs (constructor base p a creator) = Some s ->
  subState s = SubState.None.
Proof.
  intros H. apply run_keeps in H as (_ & _ & Hs). exact Hs.
Qed.

Lemma subState_stays_None_witness :
  subState Sample.delivered = SubState.None.
Proof.
  apply (subState_stays_None Sample.base (to_bytes32 "Apples") 10 9
           Sample.delivery Sample.delivered).
  vm_compute; reflexivity.
Defined.

Import Lifecycle.

Lemma is_document_entry t e :
  is_document (Table.entry t e)
  = match t with StoreAuditDocument => true | _ => false end.
Proof. destruct t; vm_compute; reflexivity. Qed.

Lemma milestones_snoc h r :
  milestones (h ++ [r])
  = milestones h ++ (if is_document r then [] else [action r]).
Proof.
  unfold milestones. rewrite filter_app, map_app. cbn.
  now destruct (is_document r).
Qed.

(** X6. The history mirrors the state.  On every storage an order can
    reach, the actions of the history, stored documents left out, are the
    first [k] lifecycle labels in lifecycle order, with [k] at most six;
    and as long as the order is not revoked, [k] is the number of its
    state: no label is skipped, repeated or out of order. *)
Theorem history_mirrors_state (s : Storage) :
  reachable s ->
  exists k : nat,
    (k <= 6)%nat /\
    milestones (history s) = map to_bytes32 (firstn k labels) /\
    (state s <> Revoked -> Z.of_nat k = State_code (state s)).
Proof.
  induction 1 as [base p a cr | s c e s' R (k & K & M & St) C].
  - exists 0%nat. split; [lia |]. split; [reflexivity |].
    intros _. reflexivity.
  - apply call_effect in C as (_ & Hs & ->).
    destruct c as [t | | a1 a2 a3 a4 a5 | la lo]; cbn [history state].
    + cbn in Hs. apply State_eqb_eq in Hs.
      assert (Ek : k = Z.to_nat (State_code (Table.precondition t))).
      { rewrite <- Hs. rewrite <- St; [lia |]. rewrite Hs.
        apply precondition_not_Revoked. }
      rewrite milestones_snoc, M, is_document_entry. clear M St K.
      destruct t; vm_compute in Ek; subst k;
        try (match goal with
             | |- context [firstn ?n labels] => exists (Datatypes.S n)
             end;
             split; [lia |]; split;
             [vm_compute; reflexivity | intros _; reflexivity]).
      exists 2%nat. split; [lia |]. split; [now rewrite app_nil_r |].
      intros _. cbn. now rewrite Hs.
    + exists k. repeat split; auto. intros N; now contradiction N.
    + exists k. auto.
    + exists k. auto.
Qed.

Lemma history_mirrors_state_witness :
  exists k : nat,
    (k <= 6)%nat /\
    milestones (history Sample.delivered)
      = map to_bytes32 (firstn k labels) /\
    (state Sample.delivered <> Revoked
     -> Z.of_nat k = State_code (state Sample.delivered)).
Proof.
  apply (history_mirrors_state Sample.delivered).
  apply (run_reachable Sample.delivery Sample.fresh).
  - apply reachable_constructor.
  - vm_compute; reflexivity.
Defined.

(** X7. Every time stamp in the history of a reachable order fits 32
    bits, whatever block times the calls were made at. *)
Theorem timestamps_fit_uint32 (s : Storage) :
  reachable s ->
  Forall (fun r => 0 <= when r < 2 ^ 32) (history s).
Proof.
  induction 1 as [base p a cr | s c e s' R IH C].
  - constructor.
  - apply call_effect in C as (_ & _ & ->).
    destruct c as [t | | |]; cbn [history]; try exact IH.
    apply Forall_app. split; [exact IH |].
    constructor; [| constructor]. cbn [when Table.entry].
    unfold to_uint32. apply Z.mod_pos_bound. lia.
Qed.

Lemma timestamps_fit_uint32_witness :
  Forall (fun r => 0 <= when r < 2 ^ 32) (history Sample.delivered).
Proof.
  apply (timestamps_fit_uint32 Sample.delivered).
  apply (run_reachable Sample.delivery Sample.fresh).
  - apply reachable_constructor.
  - vm_compute; reflexivity.
Defined.

(** X8. The location log is the log of the [updateLocation] calls: after
    any calls that go through, it is what it was with one location added
    for each [updateLocation] among them, in call order, each under the
    address of its caller; no other call writes to it. *)
Theorem location_log_is_call_log (cs : list (Call * Env)) (s s' : Storage) :
  run cs s = Some s' ->
  locationHistory s' = locationHistory s ++ located cs /\
  getLocationLength s'
    = getLocationLength s + Z.of_nat (List.length (located cs)).
Proof.
  intros H.
  assert (L : locationHistory s' = locationHistory s ++ located cs).
  { revert s H. induction cs as [| [c e] cs IH]; cbn [run]; intros s H.
    - injection H as <-. cbn. now rewrite app_nil_r.
    - destruct (call c e s) as [s1 |] eqn:C; [| discriminate].
      apply IH in H. rewrite H.
      apply call_effect in C as (_ & _ & ->).
      change (located ((c, e) :: cs))
        with (match c with
              | UpdateLocation la lo => [mkLocation la lo (msg_sender e)]
              | _ => []
              end ++ located cs).
      destruct c; cbn [locationHistory]; rewrite <- ?app_assoc; reflexivity. }
  split; [exact L |].
  unfold getLocationLength. rewrite L, length_app. lia.
Qed.

Lemma location_log_is_call_log_witness :
  locationHistory Sample.tracked_order
    = locationHistory Sample.fresh ++ located Sample.tracked /\
  getLocationLength Sample.tracked_order
    = getLocationLength Sample.fresh
      + Z.of_nat (List.length (located Sample.tracked)).
Proof.
  apply (location_log_is_call_log Sample.tracked Sample.fresh
           Sample.tracked_order).
  vm_compute; reflexivity.
Defined.

Lemma call_Do t e s :
  Table.holds (Table.role t) e s = true ->
  state s = Table.precondition t ->
  call (Do t) e s
  = Some (mkStorage (acl s) (meta s) (history s ++ [Table.entry t e])
            (locationHistory s) (Table.successor (Do t) (state s))
            (subState s)).
Proof.
  intros R S.
  destruct (call_completes (Do t) e s R) as [s' C].
  - cbn. rewrite S. apply State_eqb_refl.
  - rewrite C. f_equal. now apply call_effect in C as (_ & _ & ->).
Qed.

Ltac step t :=
  rewrite (call_Do t);
  [cbn [run] | cbn; apply Z.eqb_refl | reflexivity].

(** X9. A fresh order can always be delivered: whatever addresses the
    five roles are configured with (the same one for several roles
    included) and whatever the block times, the six state-changing
    transitions, called in lifecycle order by the holders of their roles,
    all go through and leave the order [Delivered] with the six lifecycle
    labels as its history. *)
Theorem lifecycle_completes (base : AC.t) (p : bytes32) (a : uint)
  (creator : address) (at_ : nat -> Z) :
  exists s,
    run (delivery_by base at_) (constructor base p a creator) = Some s /\
    state s = Delivered /\
    map action (history s) = map to_bytes32 labels /\
    map who (history s)
      = [AC.farmer base; AC.auditor base; AC.warehouse base;
         AC.warehouse base; AC.distributor base; AC.supermarket base].
Proof.
  eexists. split.
  - unfold delivery_by. cbn [run].
    step Approve. step Validated. step WarehouseReceivedOrder.
    step WarehouseReleasedOrder. step ReceivedAndInTransit.
    step ConfirmDelivery. reflexivity.
  - split; [reflexivity |]. split; reflexivity.
Qed.

End LifecycleProperties.

(* ================================================================== *)
(** * More on the gateway *)
(* ================================================================== *)

Section GatewayMore.

Import Gateway.
Import Promise.

Variable OrderStatus : Z -> option string.

Lemma terminated_left_aligned (s : string) : forall n,
  (String.length s <= n)%nat ->
  Lifecycle.no_NUL s = true ->
  terminated (left_aligned n s) = s.
Proof.
  induction s as [| c s IH]; intros n L N.
  - destruct n; reflexivity.
  - destruct n as [| n]; cbn in L; [lia |].
    cbn in N. apply andb_true_iff in N as [Nc Ns].
    cbn. apply negb_true_iff in Nc. rewrite Nc.
    f_equal. apply IH; [lia | exact Ns].
Qed.

(** A text of at most 32 bytes without a NUL that is well-formed UTF-8,
    written as [bytes32], is read back by [web3.toUtf8] as written. *)
Lemma toUtf8_to_bytes32 (s : string) :
  (String.length s <= 32)%nat ->
  Lifecycle.no_NUL s = true ->
  well_formed s = true ->
  toUtf8 (to_bytes32 s) = Returns s.
Proof.
  intros L N W. unfold toUtf8, to_bytes32.
  rewrite terminated_left_aligned by assumption.
  unfold well_formed in W.
  destruct (utf8decode s); [reflexivity | discriminate].
Qed.

(** X10. A history record is shown as it was written: when the entry at
    an index of a deployed order has as its action the [bytes32] of a
    text (at most 32 bytes, no NUL, well-formed UTF-8),
    [getHistoryRecord] hands out the row with that text as action and the
    writer of the entry as owner. *)
Theorem history_row_shows_what_was_recorded
  (l : Latency) (s : OrderV1.Storage) so me (a : address) (index : Z)
  (r : OrderV1.Record_) (text : string) :
  0 <= index ->
  nth_error (OrderV1.history s) (Z.to_nat index) = Some r ->
  OrderV1.action r = to_bytes32 text ->
  (String.length text <= 32)%nat ->
  Lifecycle.no_NUL text = true ->
  well_formed text = true ->
  settled_with (getHistoryRecord (blank (deployed l s so me) a) index)
    (mkOrderHistory text (OrderV1.who r) "0x4534534534abec533").
Proof.
  intros I N A L Z W.
  apply getHistoryRecord_settled
    with (record := (OrderV1.who r, OrderV1.action r, OrderV1.when r)).
  - cbn [Order.contract blank Contract.history deployed].
    unfold history_getter.
    destruct (Z.leb_spec 0 index); [| lia]. rewrite N. now eexists.
  - unfold record_row. cbn [fst snd].
    rewrite A, toUtf8_to_bytes32 by assumption. reflexivity.
Qed.

(** X11. An order shows what it was made with.  Construct an order with
    the [bytes32] of a product name (at most 32 bytes, no NUL,
    well-formed UTF-8) and an amount; after any calls that go through,
    its hydration has that product name, that amount and the address it
    was asked for. *)
Theorem hydration_shows_what_was_ordered
  (base : AC.t) (productType : string) (quantity : uint) (creator : address)
  (cs : list (OrderV1.Call * OrderV1.Env)) (s : OrderV1.Storage)
  (l : Latency) so me (a : address) :
  (String.length productType <= 32)%nat ->
  Lifecycle.no_NUL productType = true ->
  well_formed productType = true ->
  OrderV1.run cs
    (OrderV1.constructor base (to_bytes32 productType) quantity creator)
    = Some s ->
  exists o,
    settled_with (buildOrder OrderStatus (deployed l s so me) a) o /\
    Order.product o = Some productType /\
    Order.amount o = Some quantity /\
    Order.id o = a.
Proof.
  intros L N W R.
  pose proof (run_keeps _ _ _ R) as (Hp & Ha & _).
  change (OrderV1.product (OrderV1.meta s) = to_bytes32 productType) in Hp.
  change (OrderV1.amount (OrderV1.meta s) = quantity) in Ha.
  apply run_effect in R as [Hh _].
  change (OrderV1.history s = Table.entries cs) in Hh.
  eexists. split.
  - apply (deployed_hydrates OrderStatus l s so me a
             (map row (Table.recorded cs)) productType).
    + rewrite Hh. apply rows_of_entries.
    + rewrite Hp. now apply toUtf8_to_bytes32.
  - cbn [Order.product Order.amount Order.id]. rewrite Ha. auto.
Qed.

Lemma accounts_rejected_service this :
  is_rejected (eth_getAccounts (web3 this)) = true ->
  is_rejected (servicePromise this) = true.
Proof. intros H. now apply then_rejected. Qed.

(** X12. Without the accounts there is no registry: when [getAccounts]
    is answered with an error, the count, the lookup of an index, the
    hydration by index and the page listing are all rejected, whatever
    the registry itself would answer. *)
Theorem accounts_failure_fails_registry_calls (this : BlockchainService)
  (index startIndex pageSize : Z) :
  is_rejected (eth_getAccounts (web3 this)) = true ->
  is_rejected (orderCount this) = true /\
  is_rejected (order this index) = true /\
  is_rejected (getOrder OrderStatus this index) = true /\
  is_rejected (orders OrderStatus this startIndex pageSize) = true.
Proof.
  intros H. apply accounts_rejected_service in H.
  assert (C : is_rejected (orderCount this) = true)
    by (unfold orderCount, callWithPromise; now apply then_rejected).
  repeat split.
  - exact C.
  - unfold order, callWithPromise. now apply then_rejected.
  - unfold getOrder. now apply then_rejected.
  - unfold orders. now apply then_rejected.
Qed.

Lemma orders_unfolded this startIndex pageSize i count :
  orderCount this = Fulfilled i count ->
  count > 0 ->
  orders OrderStatus this startIndex pageSize
  = not_before i
      (then_ (Promise.all
                (map (getOrder OrderStatus this)
                   (sequentialArray startIndex
                      (Z.min count (startIndex + pageSize) - startIndex))))
             (fun os => resolve (mkOrdersResponse os count))).
Proof.
  intros C P. unfold orders. rewrite C. cbn [then_].
  destruct (Z.gtb_spec count 0); [reflexivity | lia].
Qed.

Lemma not_before_rejected {A} i (p : Promise.t A) :
  is_rejected (not_before i p) = is_rejected p.
Proof. now destruct p. Qed.

Lemma not_before_settled {A} i (p : Promise.t A) v :
  settled_with (not_before i p) v <-> settled_with p v.
Proof.
  split; intros [j H]; destruct p; cbn in *; try discriminate;
    injection H as _ <-; now eexists.
Qed.

(** X13. A page is all or nothing: when the hydration of a single index
    of the requested window is rejected, the listing as a whole is
    rejected; no shortened page is handed out. *)
Theorem page_fails_as_a_whole (this : BlockchainService)
  (startIndex pageSize : Z) (accs : list address) (count index : Z) :
  settled_with (eth_getAccounts (web3 this)) accs ->
  settled_with (ordersContract_getAmount (web3 this)) count ->
  startIndex <= index < Z.min count (startIndex + pageSize) ->
  0 < count ->
  is_rejected (getOrder OrderStatus this index) = true ->
  is_rejected (orders OrderStatus this startIndex pageSize) = true.
Proof.
  intros Ha Hc Hi P R.
  destruct (callWithPromise_settled this accs ordersContract_getAmount
              count Ha Hc) as [i C].
  rewrite (orders_unfolded this startIndex pageSize i count C) by lia.
  rewrite not_before_rejected. apply then_rejected.
  apply all_rejected with (p := getOrder OrderStatus this index);
    [| exact R].
  apply in_map, sequentialArray_In. lia.
Qed.

Lemma orders_inv this startIndex pageSize page count :
  settled_with (orders OrderStatus this startIndex pageSize)
               (mkOrdersResponse page count) ->
  exists i,
    orderCount this = Fulfilled i count /\
    if count >? 0
    then Forall2 settled_with
           (map (getOrder OrderStatus this)
              (sequentialArray startIndex
                 (Z.min count (startIndex + pageSize) - startIndex)))
           page
    else page = [].
Proof.
  intros [l H]. unfold orders in H.
  apply then_fulfilled_inv in H as (i & total & j & C & K).
  destruct (total >? 0) eqn:P.
  - apply then_fulfilled_inv in K as (? & os & ? & A & E).
    injection E as _ <- <-. exists i. split; [exact C |].
    rewrite P. eapply all_fulfilled_inv; eauto.
  - injection K as _ <- <-. exists i. split; [exact C |]. now rewrite P.
Qed.

Lemma map_seq_from {B} (f : nat -> B) (n : nat) : forall k0,
  map f (seq k0 n) = map (fun k => f (k0 + k)%nat) (seq 0 n).
Proof.
  induction n as [| n IH]; intros k0; [reflexivity |].
  rewrite !seq_S, !map_app, IH. reflexivity.
Qed.

Lemma sequentialArray_add start a b :
  0 <= a -> 0 <= b ->
  sequentialArray start (a + b)
  = sequentialArray start a ++ sequentialArray (start + a) b.
Proof.
  intros A B. unfold sequentialArray.
  rewrite Z2Nat.inj_add by assumption.
  rewrite seq_app, map_app. f_equal.
  rewrite map_seq_from. apply map_ext. intros k. lia.
Qed.

(** Two adjacent windows over a registry make up the window of their
    joint size. *)
Lemma window_split count start p q :
  0 <= p -> 0 <= q ->
  sequentialArray start (Z.min count (start + (p + q)) - start)
  = sequentialArray start (Z.min count (start + p) - start)
    ++ sequentialArray (start + p)
         (Z.min count (start + p + q) - (start + p)).
Proof.
  intros P Q. destruct (Z.le_gt_cases count (start + p)) as [Le | Gt].
  - rewrite (sequentialArray_empty (start + p)) by lia.
    rewrite app_nil_r. f_equal. lia.
  - replace (Z.min count (start + p) - start) with p by lia.
    rewrite <- sequentialArray_add by lia. f_equal. lia.
Qed.

(** X14. Pages join up: the page of [p] orders from [startIndex] followed
    by the page of [q] orders from [startIndex + p] is the page of
    [p + q] orders from [startIndex]; paging through the registry
    neither skips an order nor lists one twice. *)
Theorem adjacent_pages_join (this : BlockchainService)
  (startIndex p q count : Z) (page1 page2 : list Order.t) :
  0 <= p -> 0 <= q ->
  settled_with (orders OrderStatus this startIndex p)
               (mkOrdersResponse page1 count) ->
  settled_with (orders OrderStatus this (startIndex + p) q)
               (mkOrdersResponse page2 count) ->
  settled_with (orders OrderStatus this startIndex (p + q))
               (mkOrdersResponse (page1 ++ page2) count).
Proof.
  intros P Q H1 H2.
  apply orders_inv in H1 as (i & C & F1).
  apply orders_inv in H2 as (_ & _ & F2).
  destruct (Z.gtb_spec count 0) as [Pos | NPos].
  - rewrite (orders_unfolded this startIndex (p + q) i count C) by lia.
    apply not_before_settled.
    rewrite window_split, map_app by assumption.
    destruct (all_settled _ _ (Forall2_app F1 F2)) as [j A].
    rewrite A. cbn. now eexists.
  - subst page1 page2. unfold orders. rewrite C. cbn [then_].
    destruct (Z.gtb_spec count 0); [lia |]. cbn. now eexists.
Qed.

(** X15. The action path never fails towards its caller: whatever the
    order, the method name and the answers of the node, the promise
    [sendOrder] returns is never rejected.  It is fulfilled with the
    hydrated order exactly when that order was published, once; it is
    fulfilled with [undefined] exactly when one error was logged and
    nothing was published; otherwise it stays pending, and then nothing
    was logged or published. *)
Theorem sendOrder_never_rejects (this : BlockchainService)
  (order_ : Order.t) (methodName : string) (args : list Z) :
  let r := sendOrder OrderStatus this order_ methodName args in
  is_rejected (fst r) = false /\
  match fst r with
  | Fulfilled _ (Some o) => snd r = mkEffects [] [o] []
  | Fulfilled _ None => exists err, snd r = mkEffects [err] [] []
  | Pending =>
      console_error (snd r) = [] /\ updatedOrderSource (snd r) = []
  | Rejected _ _ => False
  end.
Proof.
  unfold sendOrder, setOwners, callbackToResolve.
  destruct (Contract.setOwners (Order.contract order_)
              (repeat (from this) 5) (sendDefaults this))
    as [| i h | i err]; cbn; auto.
  destruct (Contract.method (Order.contract order_) methodName)
    as [f |]; cbn; auto.
  destruct (f args (sendDefaults this)) as [| j tx | j err]; cbn; eauto.
  destruct (getOrderByAddress OrderStatus this (Order.id order_))
    as [| k o | k err]; cbn; eauto.
Qed.

(** X16. An order without history is hydrated without a single read of
    a history entry: with a history length of 0 (or less), the meta data
    and the state there and the product one that decodes, the hydration
    hands out the order with an empty history, whatever the history
    getter would answer. *)
Theorem empty_history_needs_no_entry_read (c : Contract.t) (a : address)
  (n : Z) (m : bytes32 * Z * bool) (p : string) (st : Z) :
  n <= 0 ->
  settled_with (Contract.getHistoryLength c) n ->
  settled_with (Contract.meta c) m ->
  toUtf8 (fst (fst m)) = Returns p ->
  settled_with (Contract.state c) st ->
  settled_with (buildOrder OrderStatus c a)
               (filled OrderStatus c a [] p (snd (fst m)) st).
Proof.
  intros N L M D S. apply buildOrder_settled; [| exact M | exact D | exact S].
  pose proof (getHistory_settled (blank c a) n (row_at c)) as H.
  rewrite sequentialArray_empty in H by exact N.
  apply H; [exact L |]. intros i Hi. lia.
Qed.

(** X17. [getOrder(index)] succeeds exactly when the accounts are there,
    the registry knows an address for the index and the hydration of the
    contract at that address succeeds; what it hands out is that
    hydration. *)
Theorem getOrder_settles_iff (this : BlockchainService) (index : Z)
  (o : Order.t) :
  settled_with (getOrder OrderStatus this index) o
  <-> exists accs address_,
        settled_with (eth_getAccounts (web3 this)) accs /\
        settled_with (ordersContract_orders (web3 this) index) address_ /\
        settled_with
          (buildOrder OrderStatus (eth_contract_at (web3 this) address_)
                      address_) o.
Proof.
  split.
  - intros [i H]. unfold getOrder in H.
    apply then_fulfilled_inv in H as (? & [] & ? & S & H).
    apply then_fulfilled_inv in H as (? & address_ & ? & O & H).
    unfold getOrderByAddress in H.
    apply then_fulfilled_inv in H as (? & o' & ? & B & E).
    injection E as _ <-.
    unfold order, callWithPromise, callbackToResolve in O.
    apply then_fulfilled_inv in O as (? & ? & ? & _ & O).
    unfold servicePromise, getAccounts, callbackToResolve in S.
    apply then_fulfilled_inv in S as (? & accs & ? & A & _).
    exists accs, address_. repeat split; eexists; eassumption.
  - intros (accs & address_ & A & O & [k B]).
    destruct (servicePromise_settled this accs A) as [i S].
    destruct (callWithPromise_settled this accs
                (fun w => ordersContract_orders w index) address_ A O)
      as [j C].
    unfold getOrder, order, getOrderByAddress.
    rewrite S. cbn [then_]. apply not_before_settled.
    rewrite C. cbn [then_]. apply not_before_settled.
    rewrite B. cbn. now eexists.
Qed.

(** X18. Creating an order sends with the second account as sender, and
    what the registry answers reaches the caller: an address fulfils the
    promise and sends one signal on the new-order channel; an error
    rejects the promise with the registry's reason and sends no signal;
    no answer leaves it pending without a signal. *)
Theorem createOrder_passes_the_answer_on (this : BlockchainService)
  (ordersContract_create : string -> Z -> SendDefaults -> Promise.t address)
  (productType : string) (quantity : Z) (accs : list address) :
  settled_with (eth_getAccounts (web3 this)) accs ->
  let answer :=
    ordersContract_create (Creation.fromUtf8 productType) quantity
      (mkSendDefaults (nth_error accs 1) (gas (sendDefaults this))) in
  let r :=
    Creation.createOrder this ordersContract_create productType quantity in
  match answer with
  | Fulfilled _ a => settled_with (fst r) a /\ snd r = [tt]
  | Rejected _ err => (exists k, fst r = Rejected k err) /\ snd r = []
  | Pending => r = (Pending, [])
  end.
Proof.
  intros [i A]. unfold Creation.createOrder, callbackToResolve.
  rewrite A. cbn [then_ accounts_loaded sendDefaults web3].
  destruct (ordersContract_create (Creation.fromUtf8 productType) quantity
              (mkSendDefaults (nth_error accs 1) (gas (sendDefaults this))))
    as [| j a | j err]; cbn.
  - reflexivity.
  - split; [now eexists | reflexivity].
  - split; [now eexists | reflexivity].
Qed.

End GatewayMore.

Lemma adjacent_pages_join_witness :
  Promise.settled_with
    (Gateway.orders Sample.OrderStatus Sample.service 1 (2 + 20))
    (Gateway.mkOrdersResponse
       ([Sample.hydrated 1; Sample.hydrated 2]
        ++ [Sample.hydrated 3; Sample.hydrated 4]) 5).
Proof.
  apply (adjacent_pages_join Sample.OrderStatus Sample.service 1 2 20 5
           [Sample.hydrated 1; Sample.hydrated 2]
           [Sample.hydrated 3; Sample.hydrated 4]).
  - lia.
  - lia.
  - exists 59%nat. vm_compute; reflexivity.
  - exists 57%nat. vm_compute; reflexivity.
Defined.


Lemma hydration_shows_what_was_ordered_witness :
  exists o,
    Promise.settled_with
      (Gateway.buildOrder Sample.OrderStatus
         (Gateway.deployed Sample.latency Sample.delivered Sample.accepted
            Sample.members) 100) o /\
    Gateway.Order.product o = Some "Apples" /\
    Gateway.Order.amount o = Some 10 /\
    Gateway.Order.id o = 100.
Proof.
  apply (hydration_shows_what_was_ordered Sample.OrderStatus Sample.base
           "Apples" 10 9 Sample.delivery Sample.delivered).
  - vm_compute. lia.
  - vm_compute; reflexivity.
  - vm_compute; reflexivity.
  - vm_compute; reflexivity.
Defined.

Lemma history_row_shows_what_was_recorded_witness :
  Promise.settled_with
    (Gateway.getHistoryRecord
       (Gateway.blank
          (Gateway.deployed Sample.latency Sample.delivered Sample.accepted
             Sample.members) 100) 6)
    (Gateway.mkOrderHistory "Confirmed Delivery" 5 "0x4534534534abec533").
Proof.
  apply (history_row_shows_what_was_recorded Sample.latency Sample.delivered
           Sample.accepted Sample.members 100 6
           (OrderV1.mkRecord 5 (to_bytes32 "Confirmed Delivery") 6)
           "Confirmed Delivery").
  - lia.
  - vm_compute; reflexivity.
  - reflexivity.
  - vm_compute. lia.
  - vm_compute; reflexivity.
  - vm_compute; reflexivity.
Defined.

Lemma accounts_failure_fails_registry_calls_witness :
  Promise.is_rejected
    (Gateway.orderCount (Gateway.new_BlockchainService Sample.no_accounts_node))
    = true /\
  Promise.is_rejected
    (Gateway.order (Gateway.new_BlockchainService Sample.no_accounts_node) 0)
    = true /\
  Promise.is_rejected
    (Gateway.getOrder Sample.OrderStatus
       (Gateway.new_BlockchainService Sample.no_accounts_node) 0)
    = true /\
  Promise.is_rejected
    (Gateway.orders Sample.OrderStatus
       (Gateway.new_BlockchainService Sample.no_accounts_node) 0 20)
    = true.
Proof.
  apply (accounts_failure_fails_registry_calls Sample.OrderStatus
           (Gateway.new_BlockchainService Sample.no_accounts_node) 0 0 20).
  reflexivity.
Defined.

Lemma page_fails_as_a_whole_witness :
  Promise.is_rejected
    (Gateway.orders Sample.OrderStatus
       (Gateway.new_BlockchainService Sample.broken_node) 0 20)
  = true.
Proof.
  apply (page_fails_as_a_whole Sample.OrderStatus
           (Gateway.new_BlockchainService Sample.broken_node) 0 20
           [7; 8] 5 2).
  - exists 1%nat. reflexivity.
  - exists 2%nat. reflexivity.
  - lia.
  - lia.
  - vm_compute; reflexivity.
Defined.

Lemma empty_history_needs_no_entry_read_witness :
  Promise.settled_with
    (Gateway.buildOrder Sample.OrderStatus Sample.unread 105)
    (Gateway.filled Sample.OrderStatus Sample.unread 105 [] "Pears" 4 0).
Proof.
  apply (empty_history_needs_no_entry_read Sample.OrderStatus Sample.unread
           105 0 (to_bytes32 "Pears", 4, false) "Pears" 0).
  - lia.
  - exists 2%nat. reflexivity.
  - exists 3%nat. reflexivity.
  - vm_compute; reflexivity.
  - exists 1%nat. reflexivity.
Defined.

Lemma createOrder_passes_the_answer_on_witness :
  (exists k,
     fst (Creation.createOrder Sample.service Sample.refuses "Apples" 10)
     = Promise.Rejected k "Error: out of gas") /\
  snd (Creation.createOrder Sample.service Sample.refuses "Apples" 10) = [].
Proof.
  apply (createOrder_passes_the_answer_on Sample.service Sample.refuses
           "Apples" 10 [7; 8]).
  exists 1%nat. reflexivity.
Defined.

(** The tracked order has its two locations, both under the account 8. *)
Example tracked_order_locations :
  map OrderV1.loc_who (OrderV1.locationHistory Sample.tracked_order) = [8; 8]
  /\ OrderV1.getLocationLength Sample.tracked_order = 2.
Proof. split; vm_compute; reflexivity. Qed.

(** An order whose product is no UTF-8 cannot be hydrated, although every
    read is answered: [web3.toUtf8] throws in the meta load. *)
Example hydration_fails_on_undecodable_product :
  Gateway.reads_succeed
    (Gateway.deployed Sample.latency Sample.garbled Sample.accepted
       Sample.members) = true
  /\ Gateway.buildOrder Sample.OrderStatus
       (Gateway.deployed Sample.latency Sample.garbled Sample.accepted
          Sample.members) 100
     = Promise.Rejected 30 "Error: Invalid UTF-8 detected".
Proof. split; vm_compute; reflexivity. Qed.
